(** * Channel simulation and evaluation orchestration of the ASR scenario

    A shallow embedding of [example_scenarios/asr_rir_defense.py]:
    [Readrir], [create_speech_rir], [load_audio_channel], [to_wav] and
    [AutomaticSpeechRecognition._evaluate].

    Samples are IEEE binary64 numbers (numpy's float64), taken from Rocq's
    primitive floats, so that a division by zero yields NaN here as it does
    in numpy.  Python exceptions are values of [exn]; a call either returns
    or raises ([result]). *)

From Stdlib Require Import ZArith List String Floats Lia.
From stdpp Require Import base option list gmap strings pretty.

Local Open Scope string_scope.
Local Open Scope list_scope.
Local Open Scope Z_scope.

(** ** Python exceptions and results *)

Inductive exn : Type :=
| ValueError (msg : string)
| IndexError (msg : string)
| KeyError (key : string)
| AttributeError (msg : string)
| OverflowError (msg : string)
| UnboundLocalError (name : string)
| TypeError (msg : string)
| FileNotFoundError (path : string)
| MemoryError (shape : Z).

Inductive result (A : Type) : Type :=
| Ok (a : A)
| Raise (e : exn).
Arguments Ok {A} a.
Arguments Raise {A} e.

Definition rbind {A B} (r : result A) (k : A → result B) : result B :=
  match r with
  | Ok a => k a
  | Raise e => Raise e
  end.

(** ** numpy on one-dimensional float64 arrays *)

Module np.

Definition array := list float.

(** [np.absolute]. *)
Definition absolute (a : array) : array := map PrimFloat.abs a.

(** The reduction step of [np.amax]: the larger operand, NaN if either is. *)
Definition maximum (a b : float) : float :=
  if is_nan a then a
  else if is_nan b then b
  else if (a <? b)%float then b else a.

(** [np.amax] of a one-dimensional array; an empty array has no maximum. *)
Definition amax (a : array) : result float :=
  match a with
  | [] => Raise (ValueError
      "zero-size array to reduction operation maximum which has no identity")
  | v :: vs => Ok (fold_left maximum vs v)
  end.

(** [a /= m] and [a *= m], element by element. *)
Definition idiv (a : array) (m : float) : array := map (λ v, v / m)%float a.
Definition imul (a : array) (m : float) : array := map (λ v, v * m)%float a.

(** One element of [np.clip]: [min(max(v, a_min), a_max)], a NaN operand
    [v] is handed through. *)
Definition clip1 (a_min a_max v : float) : float :=
  let lo := if is_nan v then v else if (a_min <? v)%float then v else a_min in
  if is_nan lo then lo else if (lo <? a_max)%float then lo else a_max.

Definition clip (a : array) (a_min a_max : float) : array :=
  map (clip1 a_min a_max) a.

(** [np.pad(a, (0, after), 'constant', constant_values=(0, 0))]. *)
Definition pad_after (a : array) (after : nat) : array :=
  a ++ replicate after 0%float.

(** The largest value of [np.intp] on a 64-bit platform: no shape and no
    size in bytes goes beyond it. *)
Definition max_intp : Z := 2 ^ 63 - 1.

(** [np.zeros(n)], of float64, eight bytes each.  numpy refuses a shape
    that does not fit [np.intp], in elements or in bytes; within that the
    allocator of the machine decides, and [granted n] tells whether it
    hands out [n] samples. *)
Definition zeros (granted : Z → bool) (n : Z) : result array :=
  if n <? 0 then Raise (ValueError "negative dimensions are not allowed")
  else if max_intp <? n then
    Raise (ValueError "Maximum allowed dimension exceeded")
  else if max_intp <? 8 * n then
    Raise (ValueError "array is too big; `arr.size * arr.dtype.itemsize` is larger than the maximum possible size.")
  else if granted n then Ok (replicate (Z.to_nat n) 0%float)
  else Raise (MemoryError n).

(** [np.zeros_like(a)]. *)
Definition zeros_like (granted : Z → bool) (a : array) : result array :=
  zeros granted (Z.of_nat (length a)).

End np.

(** The bounds and the scale of the normalisation, as the source writes them. *)
Definition int16_min : float := Eval cbv in (- 32768)%float.   (* -(2 ** (16 - 1)) *)
Definition int16_max : float := 32767%float.                    (* 2 ** (16 - 1) - 1 *)
Definition pad_samples : nat := Z.to_nat 100000.

(** A sample within the 16-bit range; NaN is not. *)
Definition in_int16 (v : float) : bool :=
  ((int16_min <=? v) && (v <=? int16_max))%float.

(** ** [create_speech_rir]

    [numpy.fft] is an external library.  The three transform lines
    [irfft(rfft(rir, n=shape) * rfft(audios[i], n=shape), n=shape)] are one
    operation [fft_convolve rir x shape] of the section.  numpy refuses a
    transform of fewer than one point, which is the [ValueError] below. *)

Section RIRConvolver.

Variable fft_convolve : np.array → np.array → nat → np.array.

(** The body of the loop, for one waveform [x = audios[i]]. *)
Definition speech_rir_row (rir x : np.array) : result np.array :=
  let s1 := Z.of_nat (length x) in
  let s2 := Z.of_nat (length rir) in
  let shape := s1 + s2 - 1 in
  if shape <? 1 then
    Raise (ValueError
      ("Invalid number of FFT data points (" ++ pretty shape ++ ") specified."))
  else
    let ret := fft_convolve rir x (Z.to_nat shape) in
    rbind (np.amax (np.absolute ret)) (λ m,
      let ret := np.idiv ret m in
      let ret := np.imul ret int16_max in
      let ret := np.clip ret int16_min int16_max in
      let ret := np.pad_after ret pad_samples in
      Ok (take (Z.to_nat s1) ret)).

(** The loop over the batch; the rows are stacked as they come. *)
Fixpoint create_speech_rir (audios : list np.array) (rir : np.array)
  : result (list np.array) :=
  match audios with
  | [] => Ok []
  | x :: rest =>
      rbind (speech_rir_row rir x) (λ ret,
        rbind (create_speech_rir rest rir) (λ speech_rir,
          Ok (ret :: speech_rir)))
  end.

End RIRConvolver.

(** The linear convolution that the transform product computes, by direct
    summation in binary64: sample [i] is the sum of [rir[k] * x[i - k]].
    It stands for [numpy.fft] wherever a concrete run is evaluated. *)
Definition conv_sample (r x : np.array) (i : nat) : float :=
  fold_left (λ acc k, acc + nth k r 0 * nth (i - k) x 0)%float (seq 0 (S i)) 0%float.

Definition direct_convolve (r x : np.array) (n : nat) : np.array :=
  map (conv_sample r x) (seq 0 n).

(** ** Python numbers, as a configuration file hands them over *)

Inductive pynum : Type :=
| PyInt (z : Z)
| PyFloat (f : float).

(** [int(v)]: an integer is itself, a float is truncated towards zero. *)
Definition py_int (v : pynum) : result Z :=
  match v with
  | PyInt z => Ok z
  | PyFloat f =>
      match Prim2SF f with
      | S754_nan => Raise (ValueError "cannot convert float NaN to integer")
      | S754_infinity _ =>
          Raise (OverflowError "cannot convert float infinity to integer")
      | S754_zero _ => Ok 0
      | S754_finite s m e =>
          let a := if 0 <=? e then Z.pos m * 2 ^ e else Z.pos m / 2 ^ (- e) in
          Ok (if s then - a else a)
      end
  end.

(** [float(v)]: a float is itself, an integer is rounded to the nearest
    binary64 number and refused when it is beyond the largest one. *)
Definition py_float (v : pynum) : result float :=
  match v with
  | PyFloat f => Ok f
  | PyInt z =>
      let f := SF2Prim (binary_normalize prec emax z 0 false) in
      if is_infinity f then Raise (OverflowError "int too large to convert to float")
      else Ok f
  end.

(** [a[i] = v] on a one-dimensional array, with Python's negative indices. *)
Definition setitem (a : np.array) (i : Z) (v : float) : result np.array :=
  let n := Z.of_nat (length a) in
  if (0 <=? i) && (i <? n) then Ok (<[Z.to_nat i := v]> a)
  else if (- n <=? i) && (i <? 0) then Ok (<[Z.to_nat (n + i) := v]> a)
  else Raise (IndexError "index is out of bounds for axis 0").

(** ** Observable actions

    Every call that leaves the module (logging, the collaborators of
    [armory] and [art], the file system, the debugger) is recorded, in
    order, in the trace of the run. *)

Inductive level : Type := INFO | WARNING | ERROR.

Inductive ndarray : Type :=
| Arr1 (a : np.array)
| Arr2 (rows : list np.array).

Inductive event : Type :=
| Log (lvl : level) (msg : string)
| NewLFilterPyTorch (numerator_coef denominator_coef : np.array)
| NewLFilter (numerator_coef denominator_coef : np.array)
| WavRead (path : string)
| WavWrite (path : string) (fs : Z) (signal : ndarray)
| Breakpoint
| LoadModel
| UpdatePreprocessingOperations
| LoadDefenseInternal
| LoadDefenseWrapper
| LoadDataset (split : string) (batch_size : Z) (shuffle_files : bool)
| FitGenerator
| MetricsFromConfig (skip_benign skip_attack targeted : bool)
| ApplyRIR (audios : list np.array) (rir : np.array)
| ResourceContext (name : string)
| Predict (x : list np.array)
| UpdateTask (adversarial targeted : bool)
| UpdatePerturbation
| LogTask (adversarial targeted : bool)
| LoadAdversarialDataset
| LoadAttack
| LoadLabelTargeter
| NewSampleExporter (num_samples : Z)
| LabelTargeterGenerate
| AttackGenerate (x : list np.array)
| Export
| MetricsResults.

(** A computation: the actions it performed, and how it ended. *)
Definition M (A : Type) : Type := (list event * result A)%type.

Definition ret {A} (a : A) : M A := ([], Ok a).
Definition raise {A} (e : exn) : M A := ([], Raise e).
Definition emit (e : event) : M unit := ([e], Ok tt).
Definition lift {A} (r : result A) : M A := ([], r).

Definition bind {A B} (m : M A) (k : A → M B) : M B :=
  match m with
  | (t1, Ok a) => let '(t2, r) := k a in (t1 ++ t2, r)
  | (t1, Raise e) => (t1, Raise e)
  end.

Notation "x <- c ;; k" := (bind c (λ x, k))
  (at level 100, c at next level, right associativity).
Notation "c ;; k" := (bind c (λ _, k))
  (at level 100, right associativity).

Definition trace {A} (m : M A) : list event := fst m.
Definition outcome {A} (m : M A) : result A := snd m.

Definition log (lvl : level) (msg : string) : M unit := emit (Log lvl msg).

(** [for v in l: s = body(v, s)], stopping at the first exception. *)
Fixpoint for_each {A S} (l : list A) (s : S) (body : A → S → M S) : M S :=
  match l with
  | [] => ret s
  | v :: rest => s' <- body v s ;; for_each rest s' body
  end.

(** ** [load_audio_channel] *)

Inductive lfilter : Type :=
| LFilterPyTorch (numerator_coef denominator_coef : np.array)
| LFilter (numerator_coef denominator_coef : np.array).

Definition numerator (c : lfilter) : np.array :=
  match c with LFilterPyTorch n _ | LFilter n _ => n end.
Definition denominator (c : lfilter) : np.array :=
  match c with LFilterPyTorch _ d | LFilter _ d => d end.

(** What the function takes from the machine it runs on:
    [torch_available] tells whether constructing the PyTorch filter
    succeeds or raises [ImportError]; [allocates k n] tells whether the
    allocation number [k] of a call, of [n] samples, is granted;
    [float_str] is Python's [str] on floats, by which an f-string prints
    them. *)
Record platform : Type := {
  torch_available : bool;
  allocates : nat → Z → bool;
  float_str : float → string;
}.

(** The coefficient vectors, lines 90 to 104. *)
Definition channel_coefs (P : platform) (delay : Z) (attenuation : float)
  : M (np.array * np.array) :=
  if (delay =? 0) || (attenuation =? 0)%float then
    log WARNING "Using an identity channel" ;;
    ret ([1%float], [1%float])
  else
    (if negb ((-1 <=? attenuation)%float && (attenuation <=? 1)%float)
     then log WARNING
            ("filter attenuation " ++ float_str P attenuation ++ " not in [-1, 1]")
     else ret tt) ;;
    numerator_coef <- lift (np.zeros (allocates P 0) (delay + 1)) ;;
    numerator_coef <- lift (setitem numerator_coef 0 1%float) ;;
    numerator_coef <- lift (setitem numerator_coef delay attenuation) ;;
    denominator_coef <- lift (np.zeros_like (allocates P 1) numerator_coef) ;;
    denominator_coef <- lift (setitem denominator_coef 0 1%float) ;;
    ret (numerator_coef, denominator_coef).

Definition load_audio_channel (P : platform)
    (delay attenuation : pynum) (pytorch : bool) : M lfilter :=
  delay <- lift (py_int delay) ;;
  attenuation <- lift (py_float attenuation) ;;
  if delay <? 0 then
    raise (ValueError
      ("delay " ++ pretty delay ++ " must be a nonnegative number (of samples)"))
  else
    coefs <- channel_coefs P delay attenuation ;;
    let '(numerator_coef, denominator_coef) := coefs in
    let scipy_filter :=
      log WARNING "Scipy LFilter does not currently implement proper gradients" ;;
      emit (NewLFilter numerator_coef denominator_coef) ;;
      ret (LFilter numerator_coef denominator_coef) in
    if pytorch then
      if torch_available P then
        emit (NewLFilterPyTorch numerator_coef denominator_coef) ;;
        ret (LFilterPyTorch numerator_coef denominator_coef)
      else
        log ERROR "PyTorch not available. Resorting to scipy filter" ;;
        scipy_filter
    else scipy_filter.

(** ** [Readrir] and [to_wav] *)

Definition rir_index (num_room : Z) : Z := num_room + 1000 + 1.

Definition rir_path (index : Z) : string :=
  "./rir/LibriSpeech/test-clean/3575/170457/3575-170457-0013"
    ++ "_rir_" ++ pretty index ++ ".wav".

(** [wav_read] is the content of the file system, as [scipy.io.wavfile.read]
    sees it. *)
Definition Readrir (wav_read : string → result np.array) (num_room : Z)
  : M np.array :=
  let index := rir_index num_room in
  emit (WavRead (rir_path index)) ;;
  lift (wav_read (rir_path index)).

(** [to_wav] with [norm] and [bitdepth] at their defaults, as both call
    sites leave them: no normalisation, float samples, the debugger (from
    which the run is resumed), then the file.  [wav_write] is the file
    system as [scipy.io.wavfile.write] meets it: the call returns, or it
    raises, as it does when the directory of [filename] does not exist. *)
Definition to_wav (wav_write : string → Z → ndarray → result unit)
    (signal : ndarray) (fs : Z) (filename : string) : M unit :=
  emit Breakpoint ;;
  emit (WavWrite filename fs signal) ;;
  lift (wav_write filename fs signal).

(** ** The configuration of a run

    [config] is a dictionary read from JSON.  A key the code fetches with
    [d[k]] is a field; a key fetched with [d.get(k)] is optional.  The
    [adhoc] entry is fetched once with [config.get("adhoc", {})] and once
    with [config.get("adhoc") or {}], which differ on an explicit null, so
    it keeps the three cases apart. *)

Inductive entry (A : Type) : Type :=
| Missing
| Null
| Present (a : A).
Arguments Missing {A}.
Arguments Null {A}.
Arguments Present {A} a.

Record audio_channel_config : Type := {
  ac_delay : option pynum;
  ac_attenuation : option pynum;
  ac_pytorch : option bool;
}.

Record adhoc_config : Type := {
  audio_channel : option audio_channel_config;
  skip_adversarial : bool;
}.

Record fit_kwargs_config : Type := {
  fit_batch_size : option Z;
  nb_epochs : Z;
}.

Record model_config : Type := {
  fit : bool;
  fit_kwargs : fit_kwargs_config;
  model_module : string;
  model_name : string;
}.

Record defense_config : Type := {
  defense_type : option string;
}.

Record dataset_config : Type := {
  batch_size : Z;
  dataset_name : string;
  train_split : option string;
  eval_split : option string;
}.

Record attack_config : Type := {
  attack_type : option string;
  targeted : bool;
  use_label : bool;
  targeted_labels : option string;
}.

Record metric_config : Type := {
  profiler_type : option string;
}.

Record scenario_config : Type := {
  export_samples : option Z;
}.

Record config : Type := {
  model : model_config;
  adhoc : entry adhoc_config;
  defense : option defense_config;
  dataset : dataset_config;
  attack : attack_config;
  metric : metric_config;
  scenario : scenario_config;
}.

(** [d.get(k, default)]. *)
Definition get_default {A} (d : option A) (default : A) : A :=
  match d with Some a => a | None => default end.

(** Python's [str], as an f-string applies it, on a truth value and on a
    string that may be [None]. *)
Definition str_bool (b : bool) : string := if b then "True" else "False".
Definition str_optional (s : option string) : string :=
  match s with Some s => s | None => "None" end.

(** ** The collaborators

    The estimator is its model, opaque here, and its chain of
    preprocessing defences, which [_evaluate] edits. *)

Inductive preprocessor : Type :=
| Channel (c : lfilter)
| Declared (name : string).

Record estimator (Model : Type) : Type := {
  est_model : Model;
  preprocessing_defences : list preprocessor;
}.
Arguments est_model {Model} e.
Arguments preprocessing_defences {Model} e.

Definition batch : Type := list np.array.

Record attack_object (Label : Type) : Type := {
  attack_targeted : bool;
  generate : batch → option Label → batch;
}.
Arguments attack_targeted {Label} a.
Arguments generate {Label} a x y.

(** What [armory], [art] and the environment provide; each is a function
    of its arguments and returns. *)
Record collaborators : Type := {
  Label : Type;
  Pred : Type;
  Model : Type;
  Metrics : Type;
  Results : Type;
  the_platform : platform;
  fft_convolve : np.array → np.array → nat → np.array;
  wav_read : string → result np.array;
  wav_write : string → Z → ndarray → result unit;
  load_model : model_config → estimator Model;
  load_defense_internal : defense_config → estimator Model → estimator Model;
  trainer_fit : defense_config → estimator Model →
                list (batch * Label) → estimator Model;
  fit_generator : estimator Model → list (batch * Label) → estimator Model;
  defense_transform : defense_config → estimator Model → estimator Model;
  load_dataset : dataset_config → Z → string → option Z → bool →
                 list (batch * Label);
  load_adversarial_dataset : attack_config → option Z →
                 list ((batch * batch) * Label);
  unpack_targets : Label → Label * Label;
  load_attack : attack_config → estimator Model → attack_object Label;
  load_label_targeter : string → Label → Label;
  predict : estimator Model → batch → Pred;
  metrics_from_config : metric_config → bool → bool → bool → Metrics;
  update_task : Metrics → Label → Pred → bool → bool → Metrics;
  update_perturbation : Metrics → batch → batch → Metrics;
  results : Metrics → Results;
}.

(** ** [AutomaticSpeechRecognition._evaluate] *)

Section AutomaticSpeechRecognition.

Variable E : collaborators.

Abbreviation Estimator := (estimator (Model E)).

(** [x[0]] on a batch. *)
Definition first_row (x : batch) : result np.array :=
  match x with
  | [] => Raise (IndexError "index 0 is out of bounds for axis 0 with size 0")
  | x0 :: _ => Ok x0
  end.

(** Lines 168 to 179: the audio channel is put in front of the
    estimator's preprocessing chain. *)
Definition inject_audio_channel (cfg : config) (est : Estimator) : M Estimator :=
  audio_channel_config <-
    match adhoc cfg with
    | Missing => ret None
    | Null => raise (AttributeError "'NoneType' object has no attribute 'get'")
    | Present a => ret (audio_channel a)
    end ;;
  match audio_channel_config with
  | None => ret est
  | Some acc =>
      log INFO "loading audio channel" ;;
      delay <- match ac_delay acc with
               | None => raise (ValueError "audio_channel must have key delay")
               | Some d => ret d
               end ;;
      attenuation <- match ac_attenuation acc with
               | None => raise (ValueError "audio_channel must have key attenuation")
               | Some a => ret a
               end ;;
      audio_channel <- load_audio_channel (the_platform E) delay attenuation
                         (get_default (ac_pytorch acc) true) ;;
      let est :=
        match preprocessing_defences est with
        | [] => {| est_model := est_model est;
                   preprocessing_defences := [Channel audio_channel] |}
        | ds => {| est_model := est_model est;
                   preprocessing_defences := Channel audio_channel :: ds |}
        end in
      emit UpdatePreprocessingOperations ;;
      ret est
  end.

(** Lines 181 to 222: defences and the optional fit.  [config["defense"]]
    is read only where [defense_type] was found in it. *)
Definition prepare_estimator (cfg : config) (est : Estimator) : M Estimator :=
  let defense_type :=
    match defense cfg with Some d => defense_type d | None => None end in
  let the_defense := get_default (defense cfg) {| defense_type := None |} in
  est <-
    (if bool_decide (defense_type = Some "Preprocessor")
        || bool_decide (defense_type = Some "Postprocessor")
     then log INFO ("Applying internal " ++ str_optional defense_type
                     ++ " defense to estimator") ;;
          emit LoadDefenseInternal ;;
          ret (load_defense_internal E the_defense est)
     else ret est) ;;
  est <-
    (if fit (model cfg) then
       log INFO ("Fitting model " ++ model_module (model cfg) ++ "."
                   ++ model_name (model cfg) ++ "...") ;;
       let fit_kwargs := fit_kwargs (model cfg) in
       log INFO ("Loading train dataset " ++ dataset_name (dataset cfg) ++ "...") ;;
       let popped_batch_size := batch_size (dataset cfg) in
       let fit_dataset :=
         {| batch_size := get_default (fit_batch_size fit_kwargs) popped_batch_size;
            dataset_name := dataset_name (dataset cfg);
            train_split := train_split (dataset cfg);
            eval_split := eval_split (dataset cfg) |} in
       let split := get_default (train_split (dataset cfg)) "train_clean100" in
       emit (LoadDataset split (batch_size fit_dataset) true) ;;
       let train_data :=
         load_dataset E fit_dataset (nb_epochs fit_kwargs) split None true in
       if bool_decide (defense_type = Some "Trainer") then
         log INFO ("Training with " ++ str_optional defense_type ++ " defense...") ;;
         emit LoadDefenseWrapper ;;
         emit FitGenerator ;;
         ret (trainer_fit E the_defense est train_data)
       else
         log INFO "Fitting estimator on clean train dataset..." ;;
         emit FitGenerator ;;
         ret (fit_generator E est train_data)
     else ret est) ;;
  if bool_decide (defense_type = Some "Transform") then
    log INFO ("Transforming estimator with " ++ str_optional defense_type
                ++ " defense...") ;;
    emit LoadDefenseWrapper ;;
    ret (defense_transform E the_defense est)
  else ret est.

(** Lines 255 to 269: one benign batch. *)
Definition benign_step (est : Estimator) (rir : np.array)
    (item : batch * Label E) (metrics_logger : Metrics E) : M (Metrics E) :=
  let '(x, y) := item in
  emit (ApplyRIR x rir) ;;
  x <- lift (create_speech_rir (fft_convolve E) x rir) ;;
  x0 <- lift (first_row x) ;;
  to_wav (wav_write E) (Arr1 x0) 16000 "/workspace/test.wav" ;;
  emit Breakpoint ;;
  emit (ResourceContext "Inference") ;;
  emit (Predict x) ;;
  let y_pred := predict E est x in
  emit (UpdateTask false false) ;;
  ret (update_task E metrics_logger y y_pred false false).

(** Lines 242 to 270. *)
Definition benign_phase (cfg : config) (num_eval_batches : option Z)
    (skip_benign : bool) (est : Estimator) (rir : np.array)
    (metrics_logger : Metrics E) : M (Metrics E) :=
  if skip_benign then
    log INFO "Skipping benign classification..." ;;
    ret metrics_logger
  else
    let eval_split := get_default (eval_split (dataset cfg)) "test_clean" in
    log INFO ("Loading test dataset " ++ dataset_name (dataset cfg) ++ "...") ;;
    emit (LoadDataset eval_split (batch_size (dataset cfg)) false) ;;
    let test_data :=
      load_dataset E (dataset cfg) 1 eval_split num_eval_batches false in
    log INFO "Running inference on benign examples..." ;;
    metrics_logger <- for_each test_data metrics_logger (benign_step est rir) ;;
    emit (LogTask false false) ;;
    ret metrics_logger.

(** Where the adversarial example of a batch comes from: lines 284 to 307
    choose it once, lines 323 to 333 use it for every batch. *)
Inductive attack_item : Type :=
| Replayed (x x_adv : batch) (y : Label E)
| Clean (x : batch) (y : Label E).

Definition adversarial_example (cfg : config)
    (loaded_attack : option (attack_object (Label E)))
    (label_targeter : option (Label E → Label E)) (item : attack_item)
  : M (batch * batch * Label E * option (Label E)) :=
  let attack_config := attack cfg in
  match item with
  | Replayed x x_adv y =>
      if targeted attack_config then
        let '(y, y_target) := unpack_targets E y in
        ret (x, x_adv, y, Some y_target)
      else ret (x, x_adv, y, None)
  | Clean x y =>
      the_attack <- match loaded_attack with
                    | Some a => ret a
                    | None => raise (UnboundLocalError "attack")
                    end ;;
      if use_label attack_config then
        emit (AttackGenerate x) ;;
        ret (x, generate the_attack x (Some y), y, None)
      else if targeted attack_config then
        label_targeter <- match label_targeter with
                          | Some t => ret t
                          | None => raise (UnboundLocalError "label_targeter")
                          end ;;
        emit LabelTargeterGenerate ;;
        let y_target := label_targeter y in
        emit (AttackGenerate x) ;;
        ret (x, generate the_attack x (Some y_target), y, Some y_target)
      else
        emit (AttackGenerate x) ;;
        ret (x, generate the_attack x None, y, None)
  end.

(** Lines 317 to 350: one batch of the attack phase. *)
Definition attack_step (cfg : config) (est : Estimator) (rir : np.array)
    (loaded_attack : option (attack_object (Label E)))
    (label_targeter : option (Label E → Label E))
    (sample_exporter : bool)
    (item : attack_item) (metrics_logger : Metrics E) : M (Metrics E) :=
  emit (ResourceContext "Attack") ;;
  generated <- adversarial_example cfg loaded_attack label_targeter item ;;
  let '(x, x_adv, y, y_target) := generated in
  emit (ApplyRIR x_adv rir) ;;
  x_adv <- lift (create_speech_rir (fft_convolve E) x_adv rir) ;;
  to_wav (wav_write E) (Arr2 x_adv) 16000 "~/test.wav" ;;
  emit (Predict x_adv) ;;
  let y_pred_adv := predict E est x_adv in
  emit (UpdateTask true false) ;;
  let metrics_logger := update_task E metrics_logger y y_pred_adv true false in
  metrics_logger <-
    (if targeted (attack cfg) then
       y_target <- match y_target with
                   | Some t => ret t
                   | None => raise (UnboundLocalError "y_target")
                   end ;;
       emit (UpdateTask true true) ;;
       ret (update_task E metrics_logger y_target y_pred_adv true true)
     else ret metrics_logger) ;;
  emit UpdatePerturbation ;;
  let metrics_logger := update_perturbation E metrics_logger x x_adv in
  (if sample_exporter then emit Export else ret tt) ;;
  ret metrics_logger.

(** Lines 281 to 354. *)
Definition attack_phase (cfg : config) (num_eval_batches : option Z)
    (est : Estimator) (rir : np.array) (metrics_logger : Metrics E)
  : M (Results E) :=
  let attack_config := attack cfg in
  let is_targeted := targeted attack_config in
  let eval_split := get_default (eval_split (dataset cfg)) "test_clean" in
  log INFO "Generating or loading / testing adversarial examples..." ;;
  loaded <-
    (if bool_decide (attack_type attack_config = Some "preloaded") then
       emit LoadAdversarialDataset ;;
       ret (map (λ '((x, x_adv), y), Replayed x x_adv y)
                (load_adversarial_dataset E attack_config num_eval_batches),
            None, None)
     else
       emit LoadAttack ;;
       let the_attack := load_attack E attack_config est in
       (if negb (Bool.eqb is_targeted (attack_targeted the_attack))
        then log WARNING
               ("targeted config " ++ str_bool is_targeted ++ " != attack field "
                  ++ str_bool (attack_targeted the_attack))
        else ret tt) ;;
       emit (LoadDataset eval_split (batch_size (dataset cfg)) false) ;;
       let test_data :=
         map (λ '(x, y), Clean x y)
             (load_dataset E (dataset cfg) 1 eval_split num_eval_batches false) in
       if is_targeted then
         labels <- match targeted_labels attack_config with
                   | Some l => ret l
                   | None => raise (KeyError "targeted_labels")
                   end ;;
         emit LoadLabelTargeter ;;
         ret (test_data, Some the_attack, Some (load_label_targeter E labels))
       else ret (test_data, Some the_attack, None)) ;;
  let '(test_data, loaded_attack, label_targeter) := loaded in
  sample_exporter <-
    match export_samples (scenario cfg) with
    | Some n => if 0 <? n then emit (NewSampleExporter n) ;; ret true
                else ret false
    | None => ret false
    end ;;
  metrics_logger <-
    for_each test_data metrics_logger
      (attack_step cfg est rir loaded_attack label_targeter sample_exporter) ;;
  emit (LogTask true false) ;;
  (if is_targeted then emit (LogTask true true) else ret tt) ;;
  emit MetricsResults ;;
  ret (results E metrics_logger).

(** Lines 165 to 238: the estimator and the metrics logger are made
    ready. *)
Definition setup (cfg : config) (skip_benign skip_attack : bool)
  : M (Estimator * Metrics E) :=
  emit LoadModel ;;
  let est := load_model E (model cfg) in
  est <- inject_audio_channel cfg est ;;
  est <- prepare_estimator cfg est ;;
  let is_targeted := targeted (attack cfg) in
  emit (MetricsFromConfig skip_benign skip_attack is_targeted) ;;
  let metrics_logger :=
    metrics_from_config E (metric cfg) skip_benign skip_attack is_targeted in
  (if negb (batch_size (dataset cfg) =? 1)
   then log WARNING "Evaluation batch_size != 1 may not be supported."
   else ret tt) ;;
  ret (est, metrics_logger).

Definition _evaluate (cfg : config) (num_eval_batches : option Z)
    (skip_benign skip_attack skip_misclassified : bool) : M (Results E) :=
  if skip_misclassified then
    raise (ValueError "skip_misclassified shouldn't be set for ASR scenario")
  else
    ready <- setup cfg skip_benign skip_attack ;;
    let '(est, metrics_logger) := ready in
    rir <- Readrir (wav_read E) 0 ;;
    metrics_logger <-
      benign_phase cfg num_eval_batches skip_benign est rir metrics_logger ;;
    if skip_attack then
      log INFO "Skipping attack generation..." ;;
      emit MetricsResults ;;
      ret (results E metrics_logger)
    else if match adhoc cfg with
            | Present a => skip_adversarial a
            | _ => false
            end then
      log INFO "Skipping adversarial classification..." ;;
      emit MetricsResults ;;
      ret (results E metrics_logger)
    else
      attack_phase cfg num_eval_batches est rir metrics_logger.

End AutomaticSpeechRecognition.

(** ** [create_speech_rir] on numpy's objects

    The same function once more, with arrays as objects in a store, to
    tell which of them the call writes.  [irfft], [np.clip], [np.pad] and
    [np.array] return new arrays; [/=] and [*=] write the array they are
    applied to; [audios[i]] and [ret[:s1]] are views, read where they are
    used. *)

Module Store.

Abbreviation loc := positive.
Abbreviation heap := (gmap loc ndarray).

(** A computation on the store; the store survives an exception. *)
Definition St (A : Type) : Type := heap → heap * result A.

Definition sret {A} (a : A) : St A := λ h, (h, Ok a).
Definition sraise {A} (e : exn) : St A := λ h, (h, Raise e).
Definition slift {A} (r : result A) : St A := λ h, (h, r).
Definition sbind {A B} (m : St A) (k : A → St B) : St B :=
  λ h, match m h with
       | (h', Ok a) => k a h'
       | (h', Raise e) => (h', Raise e)
       end.

Declare Scope store_scope.
Delimit Scope store_scope with store.
Notation "x <- c ;; k" := (sbind c (λ x, k))
  (at level 100, c at next level, right associativity) : store_scope.
Notation "c ;; k" := (sbind c (λ _, k))
  (at level 100, right associativity) : store_scope.
Local Open Scope store_scope.

(** A new array object. *)
Definition alloc (v : ndarray) : St loc :=
  λ h, let l := fresh (dom h) in (<[l := v]> h, Ok l).

(** The samples of the one-dimensional array at [l]. *)
Definition load1 (l : loc) : St np.array :=
  λ h, match h !! l with
       | Some (Arr1 a) => (h, Ok a)
       | _ => (h, Raise (TypeError "not a one-dimensional array"))
       end.

(** The rows of the two-dimensional array at [l]. *)
Definition load2 (l : loc) : St (list np.array) :=
  λ h, match h !! l with
       | Some (Arr2 rows) => (h, Ok rows)
       | _ => (h, Raise (TypeError "not a two-dimensional array"))
       end.

(** Writing the samples of the array at [l], in place. *)
Definition store1 (l : loc) (a : np.array) : St unit :=
  λ h, (<[l := Arr1 a]> h, Ok tt).

(** [audios[i]], read through the view. *)
Definition row (audios : loc) (i : nat) : St np.array :=
  rows <- load2 audios ;;
  match rows !! i with
  | Some x => sret x
  | None => sraise (IndexError "index is out of bounds for axis 0")
  end.

Section Convolver.

Variable fft_convolve : np.array → np.array → nat → np.array.

(** The body of the loop for row [i]; the result is the view
    [ret[:s1]]: the padded array and the number of samples kept. *)
Definition speech_rir_row (audios rir : loc) (i : nat) : St (loc * nat) :=
  x <- row audios i ;;
  r <- load1 rir ;;
  let s1 := Z.of_nat (length x) in
  let s2 := Z.of_nat (length r) in
  let shape := s1 + s2 - 1 in
  if shape <? 1 then
    sraise (ValueError
      ("Invalid number of FFT data points (" ++ pretty shape ++ ") specified."))
  else
    ret_ <- alloc (Arr1 (fft_convolve r x (Z.to_nat shape))) ;;
    cur <- load1 ret_ ;;
    m <- slift (np.amax (np.absolute cur)) ;;
    cur <- load1 ret_ ;;
    store1 ret_ (np.idiv cur m) ;;
    cur <- load1 ret_ ;;
    store1 ret_ (np.imul cur int16_max) ;;
    cur <- load1 ret_ ;;
    ret_ <- alloc (Arr1 (np.clip cur int16_min int16_max)) ;;
    cur <- load1 ret_ ;;
    ret_ <- alloc (Arr1 (np.pad_after cur pad_samples)) ;;
    sret (ret_, Z.to_nat s1).

(** [for i in range(batch_size)], appending each view to [speech_rir]. *)
Fixpoint rows_loop (audios rir : loc) (indices : list nat)
    (speech_rir : list (loc * nat)) : St (list (loc * nat)) :=
  match indices with
  | [] => sret speech_rir
  | i :: rest =>
      view <- speech_rir_row audios rir i ;;
      rows_loop audios rir rest (speech_rir ++ [view])
  end.

(** Reading the views, for the copy that [np.array] makes. *)
Fixpoint read_views (views : list (loc * nat)) : St (list np.array) :=
  match views with
  | [] => sret []
  | (l, n) :: rest =>
      a <- load1 l ;;
      others <- read_views rest ;;
      sret (take n a :: others)
  end.

Definition create_speech_rir (audios rir : loc) : St loc :=
  rows <- load2 audios ;;
  let batch_size := length rows in
  speech_rir <- rows_loop audios rir (seq 0 batch_size) [] ;;
  copied <- read_views speech_rir ;;
  alloc (Arr2 copied).

End Convolver.

End Store.

(** ** A small run, for evaluating the definitions

    One benign batch of one two-sample waveform, an impulse response of one
    sample, and collaborators that count what they are given. *)

(** Python's [str] on the floats that the runs below print; no run below
    prints another float. *)
Definition demo_float_str (f : float) : string :=
  if (f =? 3.5)%float then "3.5"
  else if (f =? 0.5)%float then "0.5"
  else if (f =? -2)%float then "-2.0"
  else if is_nan f then "nan"
  else if (f =? infinity)%float then "inf"
  else if (f =? neg_infinity)%float then "-inf"
  else "".

(** A machine with PyTorch and as much memory as numpy can address. *)
Definition demo_platform : platform := {|
  torch_available := true;
  allocates := λ _ _, true;
  float_str := demo_float_str;
|}.

(** The same machine without PyTorch. *)
Definition demo_platform_scipy : platform := {|
  torch_available := false;
  allocates := λ _ _, true;
  float_str := demo_float_str;
|}.

(** A file system that holds the impulse response of room 1001 and takes
    every write. *)
Definition demo_collaborators : collaborators := {|
  Label := unit;
  Pred := unit;
  Model := unit;
  Metrics := list (bool * bool);
  Results := list (bool * bool);
  the_platform := demo_platform;
  fft_convolve := direct_convolve;
  wav_read := λ path,
    if String.eqb path (rir_path 1001) then Ok [1%float]
    else Raise (FileNotFoundError path);
  wav_write := λ _ _ _, Ok tt;
  load_model := λ _, {| est_model := tt; preprocessing_defences := [] |};
  load_defense_internal := λ _ est, est;
  trainer_fit := λ _ est _, est;
  fit_generator := λ est _, est;
  defense_transform := λ _ est, est;
  load_dataset := λ _ _ _ _ _, [([[1; 0.5]%float], tt)];
  load_adversarial_dataset := λ _ _, [(([[1; 0.5]%float], [[0.5; 1]%float]), tt)];
  unpack_targets := λ y, (y, y);
  load_attack := λ _ _, {| attack_targeted := false; generate := λ x _, x |};
  load_label_targeter := λ _ y, y;
  predict := λ _ _, tt;
  metrics_from_config := λ _ _ _ _, [];
  update_task := λ m _ _ adversarial is_targeted, m ++ [(adversarial, is_targeted)];
  update_perturbation := λ m _ _, m;
  results := λ m, m;
|}.

Definition demo_config : config := {|
  model := {| fit := false;
              fit_kwargs := {| fit_batch_size := None; nb_epochs := 1 |};
              model_module := "armory.baseline_models.pytorch.deep_speech";
              model_name := "get_art_model" |};
  adhoc := Present {| audio_channel :=
                        Some {| ac_delay := Some (PyInt 2);
                                ac_attenuation := Some (PyFloat 0.5);
                                ac_pytorch := None |};
                      skip_adversarial := false |};
  defense := None;
  dataset := {| batch_size := 1; dataset_name := "librispeech";
                train_split := None; eval_split := None |};
  attack := {| attack_type := None; targeted := false; use_label := false;
               targeted_labels := None |};
  metric := {| profiler_type := None |};
  scenario := {| export_samples := None |};
|}.

(** A store with a batch of one waveform at address 1 and an impulse
    response at address 2. *)
Definition demo_heap : Store.heap :=
  <[2%positive := Arr1 [1%float]]> {[ 1%positive := Arr2 [[1; 0.5]%float] ]}.

(** [demo_config] with another ad-hoc entry, attack and scenario entry. *)
Definition demo_config_with (the_adhoc : entry adhoc_config)
    (the_attack : attack_config) (the_scenario : scenario_config) : config := {|
  model := model demo_config;
  adhoc := the_adhoc;
  defense := defense demo_config;
  dataset := dataset demo_config;
  attack := the_attack;
  metric := metric demo_config;
  scenario := the_scenario;
|}.

Definition demo_preloaded_attack : attack_config :=
  {| attack_type := Some "preloaded"; targeted := false; use_label := false;
     targeted_labels := None |}.

Definition demo_use_label_targeted_attack : attack_config :=
  {| attack_type := None; targeted := true; use_label := true;
     targeted_labels := Some "fixed" |}.

(** [demo_collaborators] on another dataset. *)
Definition demo_collaborators_on (data : list (batch * unit)) : collaborators := {|
  Label := unit;
  Pred := unit;
  Model := unit;
  Metrics := list (bool * bool);
  Results := list (bool * bool);
  the_platform := demo_platform;
  fft_convolve := direct_convolve;
  wav_read := wav_read demo_collaborators;
  wav_write := wav_write demo_collaborators;
  load_model := λ _, {| est_model := tt; preprocessing_defences := [] |};
  load_defense_internal := λ _ est, est;
  trainer_fit := λ _ est _, est;
  fit_generator := λ est _, est;
  defense_transform := λ _ est, est;
  load_dataset := λ _ _ _ _ _, data;
  load_adversarial_dataset := λ _ _, [];
  unpack_targets := λ y, (y, y);
  load_attack := λ _ _, {| attack_targeted := false; generate := λ x _, x |};
  load_label_targeter := λ _ y, y;
  predict := λ _ _, tt;
  metrics_from_config := λ _ _ _ _, [];
  update_task := λ m _ _ adversarial is_targeted, m ++ [(adversarial, is_targeted)];
  update_perturbation := λ m _ _, m;
  results := λ m, m;
|}.

(** [demo_config] with a defence of type "Trainer" and no fit. *)
Definition demo_trainer_config : config := {|
  model := model demo_config;
  adhoc := adhoc demo_config;
  defense := Some {| defense_type := Some "Trainer" |};
  dataset := dataset demo_config;
  attack := attack demo_config;
  metric := metric demo_config;
  scenario := scenario demo_config;
|}.

(** ** Kinds of actions

    The actions by which an attack is built, run or scored. *)
Definition attack_event (e : event) : bool :=
  match e with
  | LoadAttack | LoadAdversarialDataset | LoadLabelTargeter
  | LabelTargeterGenerate | AttackGenerate _
  | NewSampleExporter _ | Export
  | UpdatePerturbation | UpdateTask true _ | LogTask true _ => true
  | _ => false
  end.

(** The actions that [setup] can perform. *)
Definition setup_event (e : event) : bool :=
  match e with
  | Log _ _ | NewLFilterPyTorch _ _ | NewLFilter _ _ | LoadModel
  | UpdatePreprocessingOperations | LoadDefenseInternal | LoadDefenseWrapper
  | LoadDataset _ _ _ | FitGenerator | MetricsFromConfig _ _ _ => true
  | _ => false
  end.

(** The actions that the benign phase can perform. *)
Definition benign_event (e : event) : bool :=
  match e with
  | Log _ _ | LoadDataset _ _ _ | ApplyRIR _ _ | Breakpoint | WavWrite _ _ _
  | ResourceContext _ | Predict _ | UpdateTask false false
  | LogTask false false => true
  | _ => false
  end.

(** All the actions of a computation satisfy [P]. *)
Definition emits {A} (P : event → Prop) (m : M A) : Prop := Forall P (trace m).

(** The views [views] show, in the store [h], the rows [outs]. *)
Definition shows_rows (h : Store.heap) (views : list (Store.loc * nat))
    (outs : list np.array) : Prop :=
  Forall2 (λ view out, ∃ padded,
             h !! fst view = Some (Arr1 padded) ∧ take (snd view) padded = out)
          views outs.

(** The filter object that an action constructs, if it constructs one. *)
Definition constructed (e : event) : option lfilter :=
  match e with
  | NewLFilterPyTorch n d => Some (LFilterPyTorch n d)
  | NewLFilter n d => Some (LFilter n d)
  | _ => None
  end.

(** The filter object that [load_audio_channel] builds from coefficient
    vectors, and the actions of building it (lines 106 to 117). *)
Definition backend_filter (torch_available pytorch : bool)
    (numerator_coef denominator_coef : np.array) : lfilter :=
  if pytorch && torch_available
  then LFilterPyTorch numerator_coef denominator_coef
  else LFilter numerator_coef denominator_coef.

Definition backend_events (torch_available pytorch : bool)
    (numerator_coef denominator_coef : np.array) : list event :=
  if pytorch then
    if torch_available then [NewLFilterPyTorch numerator_coef denominator_coef]
    else [Log ERROR "PyTorch not available. Resorting to scipy filter";
          Log WARNING "Scipy LFilter does not currently implement proper gradients";
          NewLFilter numerator_coef denominator_coef]
  else [Log WARNING "Scipy LFilter does not currently implement proper gradients";
        NewLFilter numerator_coef denominator_coef].

(** The actions that score or log the benign task. *)
Definition benign_update (e : event) : bool :=
  match e with
  | UpdateTask false _ | LogTask false _ => true
  | _ => false
  end.

(** The actions that build or run an attack or a label targeter. *)
Definition generation_event (e : event) : bool :=
  match e with
  | LoadAttack | AttackGenerate _ | LoadLabelTargeter | LabelTargeterGenerate => true
  | _ => false
  end.

(** The actions of the sample exporter. *)
Definition export_event (e : event) : bool :=
  match e with
  | NewSampleExporter _ | Export => true
  | _ => false
  end.

(** How many actions of a trace satisfy [p]. *)
Definition count_events (p : event → bool) (t : list event) : nat :=
  length (List.filter p t).

Definition is_predict (e : event) : bool :=
  match e with Predict _ => true | _ => false end.
Definition is_breakpoint (e : event) : bool :=
  match e with Breakpoint => true | _ => false end.
Definition is_update_perturbation (e : event) : bool :=
  match e with UpdatePerturbation => true | _ => false end.
Definition is_adversarial_update (e : event) : bool :=
  match e with UpdateTask true false => true | _ => false end.
Definition is_targeted_update (e : event) : bool :=
  match e with UpdateTask true true => true | _ => false end.

(** What the benign loop does with a batch before inference: the impulse
    response is applied, the first row is taken and written to the debug
    file. *)
Definition rir_batch (E : collaborators) (rir : np.array) (x : batch)
  : result (batch * np.array) :=
  rbind (create_speech_rir (fft_convolve E) x rir) (λ x',
    rbind (first_row x') (λ x0,
      rbind (wav_write E "/workspace/test.wav" 16000 (Arr1 x0)) (λ _,
        Ok (x', x0)))).

(** The actions of one benign batch [x] whose reverberated form is [x']
    with first row [x0] (lines 258 to 269). *)
Definition benign_batch_events (rir : np.array) (x x' : batch) (x0 : np.array)
  : list event :=
  [ApplyRIR x rir; Breakpoint; WavWrite "/workspace/test.wav" 16000 (Arr1 x0);
   Breakpoint; ResourceContext "Inference"; Predict x'; UpdateTask false false].

(** A dataset load that uses the batch size the configuration gives it:
    the fit batch size, or else the dataset's, for the shuffled training
    load, and the dataset's batch size for an unshuffled load. *)
Definition loads_as_configured (cfg : config) (e : event) : Prop :=
  match e with
  | LoadDataset _ bs shuffle_files =>
      bs = if shuffle_files
           then get_default (fit_batch_size (fit_kwargs (model cfg)))
                  (batch_size (dataset cfg))
           else batch_size (dataset cfg)
  | _ => True
  end.

(** numpy allocates the two arrays of [delay + 1] samples of lines 99 and
    103. *)
Definition coefs_fit (P : platform) (delay : Z) : bool :=
  (8 * (delay + 1) <=? np.max_intp)
  && allocates P 0 (delay + 1) && allocates P 1 (delay + 1).

(** The actions of lines 95 and 96. *)
Definition range_warning (P : platform) (a : float) : list event :=
  if negb ((-1 <=? a)%float && (a <=? 1)%float)
  then [Log WARNING ("filter attenuation " ++ float_str P a ++ " not in [-1, 1]")]
  else [].

(** ** The impulse response in a run *)

Definition is_wav_read (e : event) : bool :=
  match e with WavRead _ => true | _ => false end.

(** The batch and the impulse response of a call of [create_speech_rir],
    and the batch of a call of [estimator.predict]. *)
Definition applied (e : event) : option (batch * np.array) :=
  match e with ApplyRIR x rir => Some (x, rir) | _ => None end.
Definition predicted (e : event) : option batch :=
  match e with Predict x => Some x | _ => None end.

(** The batches of the benign phase, in order (lines 242 to 255). *)
Definition benign_batches (E : collaborators) (cfg : config)
    (num_eval_batches : option Z) (skip_benign : bool) : list batch :=
  if skip_benign then []
  else
    map fst (load_dataset E (dataset cfg) 1
               (get_default (eval_split (dataset cfg)) "test_clean")
               num_eval_batches false).

(** The adversarial example of each batch of the attack phase, in order
    (lines 284 to 333): replayed from the adversarial dataset, or generated
    from a batch of the evaluation split, with the label that the
    configuration selects. *)
Definition adversarial_batches (E : collaborators) (cfg : config)
    (num_eval_batches : option Z) (est : estimator (Model E)) : list batch :=
  let attack_config := attack cfg in
  if bool_decide (attack_type attack_config = Some "preloaded") then
    map (λ '((_, x_adv), _), x_adv)
        (load_adversarial_dataset E attack_config num_eval_batches)
  else
    let the_attack := load_attack E attack_config est in
    map (λ '(x, y),
           generate the_attack x
             (if use_label attack_config then Some y
              else if targeted attack_config then
                option_map (λ labels, load_label_targeter E labels y)
                           (targeted_labels attack_config)
              else None))
        (load_dataset E (dataset cfg) 1
           (get_default (eval_split (dataset cfg)) "test_clean")
           num_eval_batches false).

(** The adversarial example that lines 323 to 333 give for one element of
    the attack loop. *)
Definition adversarial_input (E : collaborators) (cfg : config)
    (loaded_attack : option (attack_object (Label E)))
    (label_targeter : option (Label E → Label E)) (item : attack_item E) : batch :=
  match outcome (adversarial_example E cfg loaded_attack label_targeter item) with
  | Ok (_, x_adv, _, _) => x_adv
  | Raise _ => []
  end.

(** The values that [f] picks from the actions of [m] answer by [R], one
    by one and in order, to the first batches of [inputs], and to all of
    [inputs] if [m] returns. *)
Definition tracks {A B} (f : event → option B) (R : batch → B → Prop)
    (inputs : list batch) (m : M A) : Prop :=
  ∃ handled, handled `prefix_of` inputs ∧
    Forall2 R handled (omap f (trace m)) ∧
    (∀ a, outcome m = Ok a → handled = inputs).

(** The actions that use an impulse response or its result. *)
Definition rir_use (e : event) : bool :=
  match e with ApplyRIR _ _ | Predict _ => true | _ => false end.

(** The batches that a run hands to [create_speech_rir] when no step
    raises: those of the benign phase, then, unless the attack is skipped,
    those of the attack phase. *)
Definition rir_inputs (E : collaborators) (cfg : config)
    (num_eval_batches : option Z) (skip_benign skip_attack : bool)
    (est : estimator (Model E)) : list batch :=
  benign_batches E cfg num_eval_batches skip_benign
    ++ (if skip_attack
           || match adhoc cfg with Present a => skip_adversarial a | _ => false end
        then []
        else adversarial_batches E cfg num_eval_batches est).

(** * Properties *)

(** ** The result and trace monads *)

Lemma rbind_ok {A B} (r : result A) (k : A → result B) (b : B) :
  rbind r k = Ok b → ∃ a, r = Ok a ∧ k a = Ok b.
Proof. destruct r as [a|e]; simpl; [eauto | discriminate]. Qed.

Lemma bind_ret {A B} (a : A) (k : A → M B) : bind (ret a) k = k a.
Proof. unfold bind, ret. now destruct (k a). Qed.

Lemma bind_lift_ok {A B} (a : A) (k : A → M B) : bind (lift (Ok a)) k = k a.
Proof. apply bind_ret. Qed.

Lemma bind_lift_raise {A B} (e : exn) (k : A → M B) :
  bind (lift (Raise e)) k = ([], Raise e).
Proof. reflexivity. Qed.

Lemma bind_emit {B} (e : event) (k : unit → M B) :
  bind (emit e) k = (e :: trace (k tt), outcome (k tt)).
Proof. unfold bind, emit. now destruct (k tt). Qed.

Lemma trace_bind {A B} (m : M A) (k : A → M B) :
  trace (bind m k)
  = trace m ++ match outcome m with Ok a => trace (k a) | Raise _ => [] end.
Proof.
  destruct m as [t [a|e]]; cbn.
  - now destruct (k a).
  - now rewrite app_nil_r.
Qed.

Lemma outcome_bind {A B} (m : M A) (k : A → M B) :
  outcome (bind m k)
  = match outcome m with Ok a => outcome (k a) | Raise e => Raise e end.
Proof. destruct m as [t [a|e]]; cbn; [now destruct (k a) | reflexivity]. Qed.

Lemma M_eta {A} (m : M A) : m = (trace m, outcome m).
Proof. now destruct m. Qed.

(** ** Lengths of the numpy operations *)

Lemma length_absolute a : length (np.absolute a) = length a.
Proof. apply length_map. Qed.

Lemma length_clip a lo hi : length (np.clip a lo hi) = length a.
Proof. apply length_map. Qed.

Lemma length_idiv a m : length (np.idiv a m) = length a.
Proof. apply length_map. Qed.

Lemma length_imul a m : length (np.imul a m) = length a.
Proof. apply length_map. Qed.

Lemma length_pad_after a n : length (np.pad_after a n) = (length a + n)%nat.
Proof. unfold np.pad_after. now rewrite length_app, length_replicate. Qed.

Lemma amax_nonempty a : (0 < length a)%nat → ∃ m, np.amax a = Ok m.
Proof. destruct a; simpl; [lia | eauto]. Qed.

(** ** The room impulse response convolution *)

Section RIRConvolverFacts.

Variable fft : np.array → np.array → nat → np.array.
Hypothesis fft_length : ∀ r x n, (0 < n)%nat → length (fft r x n) = n.

(** What the loop body returns, once the transform has at least one
    point: the normalised, clipped, padded and cut result. *)
Lemma speech_rir_row_ok rir x :
  (1 ≤ length x + length rir - 1)%nat →
  ∃ m, np.amax (np.absolute (fft rir x (length x + length rir - 1))) = Ok m ∧
    speech_rir_row fft rir x =
      Ok (take (length x)
            (np.pad_after
               (np.clip (np.imul (np.idiv
                  (fft rir x (length x + length rir - 1)) m) int16_max)
                  int16_min int16_max)
               pad_samples)).
Proof.
  intros Hn. unfold speech_rir_row.
  destruct (Z.ltb_spec (Z.of_nat (length x) + Z.of_nat (length rir) - 1) 1) as [Hlt|_];
    [lia|].
  replace (Z.to_nat (Z.of_nat (length x) + Z.of_nat (length rir) - 1))
    with (length x + length rir - 1)%nat by lia.
  destruct (amax_nonempty (np.absolute (fft rir x (length x + length rir - 1))))
    as [m Hm].
  { rewrite length_absolute, fft_length; lia. }
  exists m. split; [exact Hm|]. rewrite Hm. simpl. now rewrite Nat2Z.id.
Qed.

Lemma speech_rir_row_length rir x :
  (1 ≤ length x)%nat → (1 ≤ length rir)%nat →
  ∃ out, speech_rir_row fft rir x = Ok out ∧ length out = length x.
Proof.
  intros Hx Hr.
  destruct (speech_rir_row_ok rir x) as (m & _ & Hrow); [lia|].
  eexists; split; [exact Hrow|].
  rewrite length_take, length_pad_after, length_clip, length_imul, length_idiv.
  rewrite fft_length; lia.
Qed.

(** C3: for waveforms of at least one sample and an impulse response of at
    least one sample, [create_speech_rir] returns, and every returned row
    has exactly the length of the input row it was computed from. *)
Theorem create_speech_rir_preserves_length (audios : list np.array) (rir : np.array) :
  Forall (λ x, (1 ≤ length x)%nat) audios →
  (1 ≤ length rir)%nat →
  ∃ out, create_speech_rir fft audios rir = Ok out ∧
         map length out = map length audios.
Proof.
  intros Hrows Hrir. induction Hrows as [|x rest Hx _ IH].
  - exists []. split; reflexivity.
  - destruct (speech_rir_row_length rir x Hx Hrir) as (row & Hrow & Hlen).
    destruct IH as (out & Hout & Hlens).
    exists (row :: out). simpl. rewrite Hrow. simpl. rewrite Hout. simpl.
    split; [reflexivity|]. now rewrite Hlen, Hlens.
Qed.

End RIRConvolverFacts.

Lemma direct_convolve_length r x n : length (direct_convolve r x n) = n.
Proof. unfold direct_convolve. now rewrite length_map, length_seq. Qed.

Lemma create_speech_rir_preserves_length_witness :
  ∃ out, create_speech_rir direct_convolve
           [[1; 0.5; 0.25]%float; [2]%float] [1; 0.5]%float = Ok out ∧
         map length out = [3; 1]%nat.
Proof.
  apply (create_speech_rir_preserves_length direct_convolve
           (λ r x n _, direct_convolve_length r x n)
           [[1; 0.5; 0.25]%float; [2]%float] [1; 0.5]%float).
  - repeat constructor; simpl; lia.
  - simpl; lia.
Defined.

(** ** Binary64 facts used below *)

Lemma float_zero_cases (v : float) :
  (v =? 0)%float = true → v = 0%float ∨ v = (-0)%float.
Proof.
  rewrite FloatAxioms.eqb_spec. intros H.
  rewrite <- (SF2Prim_Prim2SF v).
  destruct (Prim2SF v) as [[|]| [|] | | [|] m e]; try discriminate H; auto.
Qed.

Lemma float_ltb_leb (x y : float) : (x <? y)%float = true → (x <=? y)%float = true.
Proof.
  rewrite FloatAxioms.ltb_spec, FloatAxioms.leb_spec. unfold SFltb, SFleb.
  destruct (SFcompare (Prim2SF x) (Prim2SF y)) as [[| |]|]; congruence.
Qed.

(** [np.clip] puts every sample that is a number within the 16-bit range. *)
Lemma clip1_in_int16 (v : float) :
  is_nan v = false → in_int16 (np.clip1 int16_min int16_max v) = true.
Proof.
  intros Hv. unfold np.clip1, in_int16. rewrite Hv.
  destruct (int16_min <? v)%float eqn:Hlo.
  - rewrite Hv. destruct (v <? int16_max)%float eqn:Hhi.
    + now rewrite (float_ltb_leb _ _ Hlo), (float_ltb_leb _ _ Hhi).
    + reflexivity.
  - reflexivity.
Qed.

Lemma clip1_nan_or_in_int16 (v : float) :
  let c := np.clip1 int16_min int16_max v in
  is_nan c = true ∨ in_int16 c = true.
Proof.
  simpl. destruct (is_nan v) eqn:Hv.
  - left. unfold np.clip1. now rewrite !Hv.
  - right. now apply clip1_in_int16.
Qed.

(** A zero divided by the zero maximum, scaled and clipped, is NaN. *)
Lemma normalise_zero_nan (v : float) :
  (v =? 0)%float = true →
  np.clip1 int16_min int16_max (v / 0 * int16_max)%float = nan.
Proof. intros [-> | ->]%float_zero_cases; reflexivity. Qed.

Lemma map_normalise_zero (a : np.array) :
  Forall (λ v, (v =? 0)%float = true) a →
  map (λ v, np.clip1 int16_min int16_max (v / 0 * int16_max)%float) a
  = replicate (length a) nan.
Proof.
  induction 1 as [|v vs Hv _ IH]; [reflexivity|].
  cbn [map length replicate]. now rewrite (normalise_zero_nan v Hv), IH.
Qed.

Lemma amax_absolute_zero (a : np.array) :
  (0 < length a)%nat → Forall (λ v, (v =? 0)%float = true) a →
  np.amax (np.absolute a) = Ok 0%float.
Proof.
  intros Hlen Hz. destruct a as [|v vs]; [simpl in Hlen; lia|].
  apply Forall_cons in Hz as [Hv Hvs]. simpl. f_equal.
  assert (Hv0 : PrimFloat.abs v = 0%float)
    by (apply float_zero_cases in Hv as [-> | ->]; reflexivity).
  rewrite Hv0. clear Hv0 Hv Hlen.
  induction Hvs as [|w ws Hw _ IH]; simpl; [reflexivity|].
  assert (Hw0 : PrimFloat.abs w = 0%float)
    by (apply float_zero_cases in Hw as [-> | ->]; reflexivity).
  rewrite Hw0. exact IH.
Qed.

Section ZeroEnergy.

Variable fft : np.array → np.array → nat → np.array.
Hypothesis fft_length : ∀ r x n, (0 < n)%nat → length (fft r x n) = n.

(** Every returned sample is NaN or lies in the 16-bit range. *)
Lemma speech_rir_row_nan_or_in_int16 rir x out :
  (1 ≤ length x + length rir - 1)%nat →
  speech_rir_row fft rir x = Ok out →
  Forall (λ v, is_nan v = true ∨ in_int16 v = true) out.
Proof.
  intros Hn Hout.
  destruct (speech_rir_row_ok fft fft_length rir x Hn) as (m & _ & Hrow).
  rewrite Hrow in Hout. injection Hout as <-.
  apply Forall_take. unfold np.pad_after. apply Forall_app. split.
  - unfold np.clip. apply Forall_map, Forall_forall. intros v _.
    apply clip1_nan_or_in_int16.
  - apply Forall_replicate. right. reflexivity.
Qed.

(** When the convolution of a waveform is all zero, which is what a
    transform makes of an all-zero waveform, the maximum is zero and every
    returned sample is NaN: the normalisation has no guard. *)
Lemma zero_energy_row_is_nan rir x :
  (1 ≤ length x)%nat → (1 ≤ length rir)%nat →
  Forall (λ v, (v =? 0)%float = true) (fft rir x (length x + length rir - 1)) →
  speech_rir_row fft rir x = Ok (replicate (length x) nan).
Proof.
  intros Hx Hr Hz.
  destruct (speech_rir_row_ok fft fft_length rir x) as (m & Hm & Hrow); [lia|].
  rewrite amax_absolute_zero in Hm; [|rewrite fft_length; lia|exact Hz].
  injection Hm as <-. rewrite Hrow. f_equal.
  unfold np.pad_after, np.clip, np.imul, np.idiv. rewrite !map_map.
  rewrite take_app_le by (rewrite length_map, fft_length; lia).
  rewrite (map_normalise_zero _ Hz), fft_length, take_replicate by lia.
  f_equal. lia.
Qed.

End ZeroEnergy.

(** C1: on the all-zero waveform [[0, 0]] and the impulse response [[1]]
    the normalisation divides zero by zero: the call returns, and both
    samples of the returned waveform are NaN, neither silence nor a value of
    the 16-bit range. *)
Theorem create_speech_rir_zero_energy_nan :
  create_speech_rir direct_convolve [[0; 0]%float] [1%float] = Ok [[nan; nan]] ∧
  Forall (λ v, in_int16 v = false) [nan; nan].
Proof. split; [vm_compute; reflexivity | repeat constructor]. Qed.

(** ** The single-sample impulse response [[1.0]] *)

(** C2, as stated, fails: with the impulse response [[1.0]] the waveform
    [[1.0, 0.5]] comes back as [[32767.0, 16383.5]], not as itself. *)
Lemma identity_rir_does_not_reproduce_input :
  create_speech_rir direct_convolve [[1; 0.5]%float] [1%float]
    = Ok [[32767; 16383.5]%float] ∧
  create_speech_rir direct_convolve [[1; 0.5]%float] [1%float]
    ≠ Ok [[1; 0.5]%float].
Proof.
  split; [vm_compute; reflexivity|]. intros H.
  apply (f_equal (λ r, match r with
                       | Ok ((a :: _) :: _) => (a <=? 1)%float
                       | _ => true
                       end)) in H.
  vm_compute in H. discriminate H.
Qed.

(** C2, amended: when the transform of a waveform [x] with [[1.0]]
    reproduces [x], [create_speech_rir] returns [x] rescaled to the 16-bit
    full scale and clipped: sample [v] becomes
    [clip(v / max|x| * 32767, -32768, 32767)]. *)
Theorem identity_rir_rescales_input
    (fft : np.array → np.array → nat → np.array) (x : np.array) :
  (1 ≤ length x)%nat →
  fft [1%float] x (length x) = x →
  ∃ m, np.amax (np.absolute x) = Ok m ∧
       create_speech_rir fft [x] [1%float]
       = Ok [map (λ v, np.clip1 int16_min int16_max (v / m * int16_max)%float) x].
Proof.
  intros Hx Hid.
  destruct (amax_nonempty (np.absolute x)) as [m Hm];
    [rewrite length_absolute; lia|].
  exists m. split; [exact Hm|].
  cbn [create_speech_rir]. unfold speech_rir_row. cbn [length].
  destruct (Z.ltb_spec (Z.of_nat (length x) + Z.of_nat 1 - 1) 1) as [Hlt|_]; [lia|].
  replace (Z.to_nat (Z.of_nat (length x) + Z.of_nat 1 - 1)) with (length x) by lia.
  rewrite Hid, Hm. cbn [rbind]. do 2 f_equal.
  rewrite Nat2Z.id. unfold np.pad_after, np.clip, np.imul, np.idiv.
  rewrite !map_map. apply take_app_length'. now rewrite length_map.
Qed.

Lemma identity_rir_rescales_input_witness :
  ∃ m, np.amax (np.absolute [1; 0.5]%float) = Ok m ∧
       create_speech_rir direct_convolve [[1; 0.5]%float] [1%float]
       = Ok [map (λ v, np.clip1 int16_min int16_max (v / m * int16_max)%float)
                 [1; 0.5]%float].
Proof.
  apply (identity_rir_rescales_input direct_convolve [1; 0.5]%float).
  - simpl; lia.
  - vm_compute; reflexivity.
Defined.

(** ** The multipath channel *)

Lemma insert_last_zero (n : nat) (a : float) :
  <[n := a]> (replicate (S n) 0%float) = replicate n 0%float ++ [a].
Proof. induction n as [|n IH]; [reflexivity|]. cbn. f_equal. exact IH. Qed.

(** The two assignments [numerator_coef[0] = 1.0] and
    [numerator_coef[delay] = attenuation] on [np.zeros(delay + 1)]. *)
Lemma two_tap_numerator (n : nat) (a : float) :
  (0 < n)%nat →
  <[n := a]> (<[0%nat := 1%float]> (replicate (S n) 0%float))
  = 1%float :: replicate (n - 1) 0%float ++ [a].
Proof.
  intros Hn. destruct n as [|n]; [lia|].
  cbn [replicate]. cbn. f_equal.
  rewrite Nat.sub_0_r. apply (insert_last_zero n a).
Qed.

Lemma zeros_granted (granted : Z → bool) (n : Z) :
  0 ≤ n → 8 * n ≤ np.max_intp → granted n = true →
  np.zeros granted n = Ok (replicate (Z.to_nat n) 0%float).
Proof.
  intros Hn Hfit Hg. unfold np.zeros. rewrite Hg.
  destruct (Z.ltb_spec n 0); [lia|].
  destruct (Z.ltb_spec np.max_intp n); [lia|].
  destruct (Z.ltb_spec np.max_intp (8 * n)); [lia|]. reflexivity.
Qed.

Lemma zeros_ok_inv (granted : Z → bool) (n : Z) (a : np.array) :
  np.zeros granted n = Ok a →
  0 ≤ n ∧ 8 * n ≤ np.max_intp ∧ granted n = true
  ∧ a = replicate (Z.to_nat n) 0%float.
Proof.
  unfold np.zeros.
  destruct (Z.ltb_spec n 0); [discriminate|].
  destruct (Z.ltb_spec np.max_intp n); [discriminate|].
  destruct (Z.ltb_spec np.max_intp (8 * n)); [discriminate|].
  destruct (granted n); [|discriminate].
  intros [= <-]. auto.
Qed.

Lemma zeros_raises (granted : Z → bool) (n : Z) :
  0 ≤ n → (8 * n <=? np.max_intp) && granted n = false →
  ∃ e, np.zeros granted n = Raise e.
Proof.
  intros Hn H. unfold np.zeros.
  destruct (Z.ltb_spec n 0); [lia|].
  destruct (Z.ltb_spec np.max_intp n); [eauto|].
  destruct (Z.ltb_spec np.max_intp (8 * n)); [eauto|].
  destruct (Z.leb_spec (8 * n) np.max_intp); [|lia].
  cbn [andb] in H. rewrite H. eauto.
Qed.

Lemma coefs_fit_inv (P : platform) (d : Z) :
  coefs_fit P d = true →
  8 * (d + 1) ≤ np.max_intp ∧ allocates P 0 (d + 1) = true
  ∧ allocates P 1 (d + 1) = true.
Proof.
  unfold coefs_fit. intros H.
  apply andb_prop in H as [H H2]. apply andb_prop in H as [H0 H1].
  apply Z.leb_le in H0. auto.
Qed.

Lemma channel_coefs_identity (P : platform) (d : Z) (a : float) :
  (d = 0 ∨ (a =? 0)%float = true) →
  channel_coefs P d a
  = ([Log WARNING "Using an identity channel"], Ok ([1%float], [1%float])).
Proof.
  intros H. unfold channel_coefs.
  assert (Hc : (d =? 0) || (a =? 0)%float = true).
  { destruct H as [-> | ->]; [reflexivity | apply orb_true_r]. }
  rewrite Hc. reflexivity.
Qed.

(** The assignments of lines 100, 101 and 104 on arrays of zeros. *)
Lemma setitem_zeros_0 (n : nat) :
  setitem (replicate (S n) 0%float) 0 1%float = Ok (1%float :: replicate n 0%float).
Proof. reflexivity. Qed.

Lemma setitem_delay (d : Z) (a : float) :
  0 < d →
  setitem (1%float :: replicate (Z.to_nat d) 0%float) d a
  = Ok (1%float :: replicate (Z.to_nat d - 1) 0%float ++ [a]).
Proof.
  intros Hd. unfold setitem. cbn [length]. rewrite length_replicate.
  destruct (Z.leb_spec 0 d); [|lia].
  destruct (Z.ltb_spec d (Z.of_nat (S (Z.to_nat d)))); [|lia].
  cbn [andb]. f_equal.
  rewrite <- (two_tap_numerator (Z.to_nat d) a) by lia. reflexivity.
Qed.

Lemma length_two_tap (d : Z) (a : float) :
  0 < d →
  Z.of_nat (length (1%float :: replicate (Z.to_nat d - 1) 0%float ++ [a])) = d + 1.
Proof.
  intros Hd. cbn [length]. rewrite length_app, length_replicate. cbn [length]. lia.
Qed.

Lemma channel_coefs_two_tap_run (P : platform) (d : Z) (a : float) :
  0 < d → (a =? 0)%float = false → coefs_fit P d = true →
  channel_coefs P d a
  = (range_warning P a,
     Ok (1%float :: replicate (Z.to_nat d - 1) 0%float ++ [a],
         1%float :: replicate (Z.to_nat d) 0%float)).
Proof.
  intros Hd Ha Hfit. apply coefs_fit_inv in Hfit as (Hsz & Hg0 & Hg1).
  unfold channel_coefs, range_warning.
  destruct (Z.eqb_spec d 0) as [->|_]; [lia|]. rewrite Ha. cbn [orb].
  rewrite (zeros_granted (allocates P 0) (d + 1)) by (auto; lia).
  replace (Z.to_nat (d + 1)) with (S (Z.to_nat d)) by lia.
  rewrite bind_lift_ok, setitem_zeros_0, bind_lift_ok.
  rewrite (setitem_delay d a Hd), bind_lift_ok.
  unfold np.zeros_like. rewrite (length_two_tap d a Hd).
  rewrite (zeros_granted (allocates P 1) (d + 1)) by (auto; lia).
  replace (Z.to_nat (d + 1)) with (S (Z.to_nat d)) by lia.
  rewrite bind_lift_ok, setitem_zeros_0, bind_lift_ok.
  destruct (negb ((-1 <=? a)%float && (a <=? 1)%float)); reflexivity.
Qed.

Lemma channel_coefs_refused (P : platform) (d : Z) (a : float) :
  0 < d → (a =? 0)%float = false → coefs_fit P d = false →
  ∃ e, channel_coefs P d a = (range_warning P a, Raise e).
Proof.
  intros Hd Ha Hfit. unfold channel_coefs, range_warning.
  destruct (Z.eqb_spec d 0) as [->|_]; [lia|]. rewrite Ha. cbn [orb].
  destruct (np.zeros (allocates P 0) (d + 1)) as [z|e] eqn:Hz.
  - apply zeros_ok_inv in Hz as (_ & Hsz & Hg0 & ->).
    replace (Z.to_nat (d + 1)) with (S (Z.to_nat d)) by lia.
    rewrite bind_lift_ok, setitem_zeros_0, bind_lift_ok.
    rewrite (setitem_delay d a Hd), bind_lift_ok.
    unfold np.zeros_like. rewrite (length_two_tap d a Hd).
    destruct (zeros_raises (allocates P 1) (d + 1)) as [e He]; [lia| |].
    { unfold coefs_fit in Hfit. rewrite Hg0 in Hfit.
      destruct (8 * (d + 1) <=? np.max_intp); [exact Hfit | reflexivity]. }
    rewrite He. exists e.
    destruct (negb ((-1 <=? a)%float && (a <=? 1)%float)); reflexivity.
  - exists e.
    destruct (negb ((-1 <=? a)%float && (a <=? 1)%float)); reflexivity.
Qed.

Lemma channel_coefs_two_tap (P : platform) (d : Z) (a : float) :
  0 < d → (a =? 0)%float = false → coefs_fit P d = true →
  outcome (channel_coefs P d a)
  = Ok (1%float :: replicate (Z.to_nat d - 1) 0%float ++ [a],
        1%float :: replicate (Z.to_nat d) 0%float) ∧
  Forall (λ e, ∃ msg, e = Log WARNING msg) (trace (channel_coefs P d a)).
Proof.
  intros Hd Ha Hfit. rewrite (channel_coefs_two_tap_run P d a Hd Ha Hfit).
  split; [reflexivity|]. unfold range_warning. cbn [trace fst].
  destruct (negb ((-1 <=? a)%float && (a <=? 1)%float));
    repeat constructor; eauto.
Qed.

(** The shape of the two-tap numerator. *)
Lemma two_tap_shape (d : Z) (a : float) :
  0 < d →
  let num := 1%float :: replicate (Z.to_nat d - 1) 0%float ++ [a] in
  length num = Z.to_nat (d + 1) ∧ num !! 0%nat = Some 1%float ∧
  num !! Z.to_nat d = Some a ∧
  (∀ i, (0 < i < Z.to_nat d)%nat → num !! i = Some 0%float).
Proof.
  intros Hpos num. subst num. repeat split.
  - cbn [length]. rewrite length_app, length_replicate. cbn [length]. lia.
  - replace (Z.to_nat d) with (S (Z.to_nat d - 1)) at 1 by lia.
    rewrite lookup_cons_ne_0 by lia. cbn [Nat.pred].
    rewrite lookup_app_r by (rewrite length_replicate; lia).
    rewrite length_replicate, Nat.sub_diag. reflexivity.
  - intros i Hi. destruct i as [|i]; [lia|].
    rewrite lookup_cons_ne_0 by lia. cbn [Nat.pred].
    rewrite lookup_app_l by (rewrite length_replicate; lia).
    apply lookup_replicate_2. lia.
Qed.

(** C6: a delay of zero, or an attenuation equal to zero, with a delay that
    is not negative, gives the identity filter, numerator [[1.0]] and
    denominator [[1.0]]; the call returns and logs the warning "Using an
    identity channel". *)
Theorem load_audio_channel_identity
    (P : platform) (delay attenuation : pynum) (pytorch : bool) (d : Z) (a : float) :
  py_int delay = Ok d →
  py_float attenuation = Ok a →
  0 ≤ d →
  d = 0 ∨ (a =? 0)%float = true →
  ∃ c, outcome (load_audio_channel P delay attenuation pytorch) = Ok c ∧
       numerator c = [1%float] ∧ denominator c = [1%float] ∧
       In (Log WARNING "Using an identity channel")
          (trace (load_audio_channel P delay attenuation pytorch)).
Proof.
  intros Hd Ha Hnonneg Hid. unfold load_audio_channel.
  rewrite Hd, Ha. cbn [lift bind app].
  destruct (Z.ltb_spec d 0) as [Hneg|_]; [lia|].
  rewrite (channel_coefs_identity P d a Hid).
  destruct pytorch, (torch_available P); cbn; eexists;
    (split; [reflexivity|]); cbn; auto.
Qed.

Lemma load_audio_channel_identity_witness :
  ∃ c, outcome (load_audio_channel demo_platform (PyFloat 0.5) (PyInt 0) true) = Ok c ∧
       numerator c = [1%float] ∧ denominator c = [1%float] ∧
       In (Log WARNING "Using an identity channel")
          (trace (load_audio_channel demo_platform (PyFloat 0.5) (PyInt 0) true)).
Proof.
  apply (load_audio_channel_identity demo_platform (PyFloat 0.5) (PyInt 0) true
           0 0%float).
  - reflexivity.
  - reflexivity.
  - lia.
  - left; reflexivity.
Defined.

(** C7, as stated, fails: with a delay of [2 ** 63] samples and an
    attenuation of one half, on a machine that grants every allocation,
    [np.zeros(delay + 1)] refuses the shape and the call raises
    [ValueError]; no filter is built. *)
Lemma load_audio_channel_two_tap_refused :
  load_audio_channel demo_platform (PyInt (2 ^ 63)) (PyFloat 0.5) true
  = ([], Raise (ValueError "Maximum allowed dimension exceeded")).
Proof. vm_compute. reflexivity. Qed.

(** C7, amended: a positive delay [d] and an attenuation [a] that is not
    zero, when numpy allocates the two arrays of [d + 1] samples, give a
    numerator of [d + 1] coefficients, [1.0] first, [a] last and zero
    between, and a denominator of the same length, [1.0] followed by
    zeros.  When numpy does not allocate them, the call raises and has
    constructed no filter. *)
Theorem load_audio_channel_two_tap
    (P : platform) (delay attenuation : pynum) (pytorch : bool) (d : Z) (a : float) :
  py_int delay = Ok d →
  py_float attenuation = Ok a →
  0 < d →
  (a =? 0)%float = false →
  let call := load_audio_channel P delay attenuation pytorch in
  if coefs_fit P d then
    ∃ c, outcome call = Ok c ∧
         length (numerator c) = Z.to_nat (d + 1) ∧
         numerator c !! 0%nat = Some 1%float ∧
         numerator c !! Z.to_nat d = Some a ∧
         (∀ i, (0 < i < Z.to_nat d)%nat → numerator c !! i = Some 0%float) ∧
         denominator c = 1%float :: replicate (Z.to_nat d) 0%float
  else
    ∃ e, outcome call = Raise e ∧ omap constructed (trace call) = [].
Proof.
  intros Hd Ha Hpos Hnz call. subst call. unfold load_audio_channel.
  rewrite Hd, Ha. cbn [lift bind app].
  destruct (Z.ltb_spec d 0) as [Hneg|_]; [lia|].
  destruct (coefs_fit P d) eqn:Hfit.
  - rewrite (channel_coefs_two_tap_run P d a Hpos Hnz Hfit).
    destruct (two_tap_shape d a Hpos) as (Hlen & H0 & Hlast & Hmid).
    destruct pytorch, (torch_available P); cbn; eexists;
      (split; [reflexivity|]); cbn; auto.
  - destruct (channel_coefs_refused P d a Hpos Hnz Hfit) as [e ->].
    exists e. cbn. split; [reflexivity|].
    unfold range_warning.
    destruct (negb ((-1 <=? a)%float && (a <=? 1)%float)); reflexivity.
Qed.

Lemma load_audio_channel_two_tap_witness :
  ∃ c, outcome (load_audio_channel demo_platform (PyInt 2) (PyFloat 0.5) true) = Ok c ∧
       length (numerator c) = 3%nat ∧
       numerator c !! 0%nat = Some 1%float ∧
       numerator c !! 2%nat = Some 0.5%float ∧
       (∀ i, (0 < i < 2)%nat → numerator c !! i = Some 0%float) ∧
       denominator c = [1; 0; 0]%float.
Proof.
  apply (load_audio_channel_two_tap demo_platform (PyInt 2) (PyFloat 0.5) true
           2 0.5%float).
  - reflexivity.
  - reflexivity.
  - lia.
  - reflexivity.
Defined.

(** C10, as stated, fails: with a delay of [-1] and the integer
    [10 ** 400] as attenuation, [float(attenuation)] on line 86 raises
    [OverflowError] before the delay is looked at, so the call does not
    raise [ValueError]. *)
Lemma load_audio_channel_negative_delay_overflow :
  load_audio_channel demo_platform (PyInt (-1)) (PyInt (10 ^ 400)) true
  = ([], Raise (OverflowError "int too large to convert to float")).
Proof. vm_compute. reflexivity. Qed.

(** C10, amended: when [int(delay)] is negative, the call raises before
    anything is logged or constructed: the [ValueError] that names the
    delay and the requirement if [float(attenuation)] succeeds, and the
    exception of [float(attenuation)] if it does not. *)
Theorem load_audio_channel_negative_delay
    (P : platform) (delay attenuation : pynum) (pytorch : bool) (d : Z) :
  py_int delay = Ok d →
  d < 0 →
  load_audio_channel P delay attenuation pytorch
  = match py_float attenuation with
    | Ok _ =>
        ([], Raise (ValueError
           ("delay " ++ pretty d ++ " must be a nonnegative number (of samples)")))
    | Raise e => ([], Raise e)
    end.
Proof.
  intros Hd Hneg. unfold load_audio_channel.
  rewrite Hd. cbn [lift bind app].
  destruct (py_float attenuation) as [a|e]; cbn [bind app]; [|reflexivity].
  destruct (Z.ltb_spec d 0) as [_|Hge]; [reflexivity | lia].
Qed.

Lemma load_audio_channel_negative_delay_witness :
  load_audio_channel demo_platform (PyFloat (-2.5)) (PyInt 0) true
  = ([], Raise (ValueError "delay -2 must be a nonnegative number (of samples)")).
Proof.
  apply (load_audio_channel_negative_delay demo_platform (PyFloat (-2.5)) (PyInt 0)
           true (-2)).
  - vm_compute; reflexivity.
  - lia.
Defined.

(** ** Actions of composed computations *)

Section Emits.

Context (P : event → Prop).

Lemma emits_ret {A} (a : A) : emits P (ret a).
Proof. constructor. Qed.

Lemma emits_raise {A} (e : exn) : emits P (raise (A := A) e).
Proof. constructor. Qed.

Lemma emits_lift {A} (r : result A) : emits P (lift r).
Proof. constructor. Qed.

Lemma emits_emit (e : event) : P e → emits P (emit e).
Proof. intros He. repeat constructor. exact He. Qed.

Lemma emits_bind {A B} (m : M A) (k : A → M B) :
  emits P m → (∀ a, outcome m = Ok a → emits P (k a)) → emits P (bind m k).
Proof.
  unfold emits. intros Hm Hk. rewrite trace_bind. apply Forall_app. split; [exact Hm|].
  destruct (outcome m) as [a|e]; [now apply Hk | constructor].
Qed.

Lemma emits_for_each {A S} (l : list A) (s : S) (body : A → S → M S) :
  (∀ v s', emits P (body v s')) → emits P (for_each l s body).
Proof.
  intros Hbody. revert s. induction l as [|v rest IH]; intros s; cbn [for_each].
  - apply emits_ret.
  - apply emits_bind; [apply Hbody | intros s' _; apply IH].
Qed.

End Emits.

Lemma emits_impl {A} (P Q : event → Prop) (m : M A) :
  (∀ e, P e → Q e) → emits P m → emits Q m.
Proof. unfold emits. intros HPQ Hm. eapply Forall_impl; eauto. Qed.

(** One step through a computation written with [bind], [emit], branches
    and loops, for a goal [emits P _]. *)
Ltac emits_step :=
  lazymatch goal with
  | |- emits _ (ret _) => apply emits_ret
  | |- emits _ (raise _) => apply emits_raise
  | |- emits _ (lift _) => apply emits_lift
  | |- emits _ (emit _) =>
      apply emits_emit; first [cbn; solve [eauto] | cbn in *; solve [eauto]]
  | |- emits _ (for_each _ _ _) => apply emits_for_each; intros ? ?
  | |- emits _ (bind _ _) => apply emits_bind; [|intros ? ?]
  | |- emits _ (if ?b then _ else _) => destruct b
  | |- emits _ (match ?x with _ => _ end) => destruct x
  end.

Ltac emits_auto := unfold log, to_wav; repeat emits_step.

(** ** The orchestrator *)

Section Orchestrator.

Variable E : collaborators.

Lemma Readrir_spec (num_room : Z) :
  Readrir (wav_read E) num_room
  = ([WavRead (rir_path (num_room + 1001))],
     wav_read E (rir_path (num_room + 1001))).
Proof.
  unfold Readrir, rir_index.
  replace (num_room + 1000 + 1) with (num_room + 1001) by lia.
  rewrite bind_emit. reflexivity.
Qed.

Lemma Readrir_room_0 :
  Readrir (wav_read E) 0
  = ([WavRead (rir_path 1001)], wav_read E (rir_path 1001)).
Proof. exact (Readrir_spec 0). Qed.

Lemma load_audio_channel_setup_events torch delay attenuation pytorch :
  emits (λ e, setup_event e = true)
        (load_audio_channel torch delay attenuation pytorch).
Proof. unfold load_audio_channel, channel_coefs. emits_auto. Qed.

Lemma inject_audio_channel_setup_events cfg est :
  emits (λ e, setup_event e = true) (inject_audio_channel E cfg est).
Proof.
  unfold inject_audio_channel. emits_auto.
  all: try apply load_audio_channel_setup_events; emits_auto.
Qed.

Lemma prepare_estimator_setup_events cfg est :
  emits (λ e, setup_event e = true) (prepare_estimator E cfg est).
Proof. unfold prepare_estimator. emits_auto. Qed.

Lemma setup_setup_events cfg sb sa :
  emits (λ e, setup_event e = true) (setup E cfg sb sa).
Proof.
  unfold setup. emits_auto.
  all: first [apply inject_audio_channel_setup_events
             | apply prepare_estimator_setup_events | idtac]; emits_auto.
Qed.

Lemma benign_phase_benign_events cfg n sb est rir m :
  emits (λ e, benign_event e = true) (benign_phase E cfg n sb est rir m).
Proof. unfold benign_phase, benign_step. emits_auto. Qed.

Lemma setup_event_not_attack e : setup_event e = true → attack_event e = false.
Proof. destruct e; cbn; congruence. Qed.

Lemma benign_event_not_attack e : benign_event e = true → attack_event e = false.
Proof.
  destruct e; cbn; try congruence;
    repeat match goal with b : bool |- _ => destruct b end; cbn; congruence.
Qed.

(** The part of [_evaluate] that follows the benign phase when the attack
    is skipped. *)
Lemma evaluate_tail_skipped cfg n sa est rir (m : Metrics E) :
  sa = true ∨ (∃ a, adhoc cfg = Present a ∧ skip_adversarial a = true) →
  ∃ msg,
    (if sa then
       log INFO "Skipping attack generation..." ;;
       emit MetricsResults ;;
       ret (results E m)
     else if match adhoc cfg with
             | Present a => skip_adversarial a
             | _ => false
             end then
       log INFO "Skipping adversarial classification..." ;;
       emit MetricsResults ;;
       ret (results E m)
     else attack_phase E cfg n est rir m)
    = ([Log INFO msg; MetricsResults], Ok (results E m)).
Proof.
  intros [-> | (a & Ha & Hskip)].
  - eexists; reflexivity.
  - rewrite Ha, Hskip. destruct sa; eexists; reflexivity.
Qed.

(** C4: with [skip_misclassified] set, [_evaluate] raises the
    [ValueError] and has performed no action at all: no model, no dataset
    and no file has been touched. *)
Theorem skip_misclassified_fails_fast
    (cfg : config) (num_eval_batches : option Z) (skip_benign skip_attack : bool) :
  _evaluate E cfg num_eval_batches skip_benign skip_attack true
  = ([], Raise (ValueError "skip_misclassified shouldn't be set for ASR scenario")).
Proof. reflexivity. Qed.

(** C5: when [skip_attack] is set, or the ad-hoc flag [skip_adversarial]
    is, a run performs no action that builds, runs or scores an attack,
    and it ends as its stages up to the benign phase end: with the results
    of the metrics logger as the benign phase left it, or with the
    exception of the first stage that raised. *)
Theorem skip_attack_returns_benign_results
    (cfg : config) (num_eval_batches : option Z) (skip_benign skip_attack : bool) :
  skip_attack = true ∨
    (∃ a, adhoc cfg = Present a ∧ skip_adversarial a = true) →
  Forall (λ e, attack_event e = false)
         (trace (_evaluate E cfg num_eval_batches skip_benign skip_attack false)) ∧
  outcome (_evaluate E cfg num_eval_batches skip_benign skip_attack false)
  = rbind (outcome (setup E cfg skip_benign skip_attack)) (λ ready,
      rbind (wav_read E (rir_path 1001)) (λ rir,
        rbind (outcome (benign_phase E cfg num_eval_batches skip_benign
                          (fst ready) rir (snd ready)))
              (λ metrics_logger, Ok (results E metrics_logger)))).
Proof.
  intros Hskip. unfold _evaluate. split.
  - apply emits_bind.
    { eapply emits_impl; [apply setup_event_not_attack | apply setup_setup_events]. }
    intros [est m0] _. apply emits_bind.
    { rewrite Readrir_room_0. repeat constructor. }
    intros rir _. apply emits_bind.
    { eapply emits_impl;
        [apply benign_event_not_attack | apply benign_phase_benign_events]. }
    intros m _.
    destruct (evaluate_tail_skipped cfg num_eval_batches skip_attack est rir m Hskip)
      as [msg ->].
    repeat constructor.
  - rewrite outcome_bind.
    destruct (outcome (setup E cfg skip_benign skip_attack)) as [[est m0]|e];
      [|reflexivity].
    rewrite outcome_bind, Readrir_room_0. cbn [outcome snd rbind fst].
    destruct (wav_read E (rir_path 1001)) as [rir|e]; [|reflexivity].
    rewrite outcome_bind. cbn [rbind].
    destruct (outcome (benign_phase E cfg num_eval_batches skip_benign est rir m0))
      as [m|e]; [|reflexivity].
    destruct (evaluate_tail_skipped cfg num_eval_batches skip_attack est rir m Hskip)
      as [msg ->].
    reflexivity.
Qed.

(** *** The impulse response through the two phases *)

Lemma omap_none_nil {A B} (f : A → option B) (l : list A) :
  Forall (λ e, f e = None) l → omap f l = [].
Proof. induction 1 as [|e l He _ IH]; cbn; [reflexivity | now rewrite He]. Qed.

Lemma count_events_app (p : event → bool) (t1 t2 : list event) :
  count_events p (t1 ++ t2) = (count_events p t1 + count_events p t2)%nat.
Proof. unfold count_events. now rewrite List.filter_app, length_app. Qed.

Lemma count_events_none (p : event → bool) (t : list event) :
  Forall (λ e, p e = false) t → count_events p t = 0%nat.
Proof.
  unfold count_events. induction 1 as [|e t He _ IH]; [reflexivity|].
  cbn [List.filter]. now rewrite He.
Qed.

Section Tracking.

Context {B : Type} (f : event → option B) (R : batch → B → Prop).

Lemma tracks_silent {A} (m : M A) :
  emits (λ e, f e = None) m → tracks f R [] m.
Proof.
  intros Hm. exists []. split; [reflexivity|].
  rewrite (omap_none_nil f _ Hm). split; [constructor | reflexivity].
Qed.

Lemma tracks_emit (e : event) (x : batch) (b : B) :
  f e = Some b → R x b → tracks f R [x] (emit e).
Proof.
  intros He Hx. exists [x]. split; [reflexivity|]. split; [|reflexivity].
  cbn. rewrite He. repeat constructor. exact Hx.
Qed.

Lemma tracks_bind {A C} (inputs1 inputs2 : list batch) (m : M A) (k : A → M C) :
  tracks f R inputs1 m →
  (∀ a, outcome m = Ok a → tracks f R inputs2 (k a)) →
  tracks f R (inputs1 ++ inputs2) (bind m k).
Proof.
  intros (h1 & Hp1 & HF1 & Hall1) Hk. unfold tracks.
  rewrite trace_bind, outcome_bind, omap_app.
  destruct (outcome m) as [a|e].
  - rewrite (Hall1 a eq_refl) in HF1.
    destruct (Hk a eq_refl) as (h2 & Hp2 & HF2 & Hall2).
    exists (inputs1 ++ h2). split; [now apply prefix_app|].
    split; [now apply Forall2_app|].
    intros c Hc. f_equal. eauto.
  - exists h1. split; [now apply prefix_app_r|].
    split; [now rewrite app_nil_r | discriminate].
Qed.

Lemma tracks_bind_l {A C} (inputs : list batch) (m : M A) (k : A → M C) :
  emits (λ e, f e = None) m →
  (∀ a, outcome m = Ok a → tracks f R inputs (k a)) →
  tracks f R inputs (bind m k).
Proof.
  intros Hm Hk. apply (tracks_bind [] inputs); [now apply tracks_silent | exact Hk].
Qed.

Lemma tracks_bind_r {A C} (inputs : list batch) (m : M A) (k : A → M C) :
  tracks f R inputs m →
  (∀ a, outcome m = Ok a → emits (λ e, f e = None) (k a)) →
  tracks f R inputs (bind m k).
Proof.
  intros Hm Hk. rewrite <- (app_nil_r inputs).
  apply tracks_bind; [exact Hm|]. intros a Ha. now apply tracks_silent, Hk.
Qed.

Lemma tracks_for_each {A S} (input : A → batch) (body : A → S → M S) :
  (∀ v s, tracks f R [input v] (body v s)) →
  ∀ l s, tracks f R (map input l) (for_each l s body).
Proof.
  intros Hbody. induction l as [|v l IH]; intros s; cbn [for_each map].
  - apply tracks_silent. constructor.
  - apply (tracks_bind [input v] (map input l)); [apply Hbody|].
    intros s' _. apply IH.
Qed.

(** The phases, for a choice of [f] that looks at the uses of the impulse
    response only, and steps that are tracked. *)
Variable rir : np.array.
Hypothesis f_quiet : ∀ e, rir_use e = false → f e = None.
Hypothesis benign_step_tracks : ∀ est item m,
  tracks f R [fst item] (benign_step E est rir item m).
Hypothesis attack_step_tracks : ∀ cfg est la lt ex item m,
  tracks f R [adversarial_input E cfg la lt item]
         (attack_step E cfg est rir la lt ex item m).

Lemma quiet_silent {A} (m : M A) :
  emits (λ e, rir_use e = false) m → emits (λ e, f e = None) m.
Proof. apply emits_impl. exact f_quiet. Qed.

Lemma benign_phase_tracks cfg n sb est m :
  tracks f R (benign_batches E cfg n sb) (benign_phase E cfg n sb est rir m).
Proof.
  unfold benign_phase, benign_batches. destruct sb.
  - apply tracks_silent, quiet_silent. emits_auto.
  - apply tracks_bind_l; [apply quiet_silent; emits_auto|]. intros _ _.
    apply tracks_bind_l; [apply quiet_silent; emits_auto|]. intros _ _.
    apply tracks_bind_l; [apply quiet_silent; emits_auto|]. intros _ _.
    apply tracks_bind_r.
    + apply tracks_for_each. intros item m'. apply benign_step_tracks.
    + intros m' _. apply quiet_silent. emits_auto.
Qed.

Lemma adversarial_input_replayed cfg la lt x x_adv y :
  adversarial_input E cfg la lt (Replayed E x x_adv y) = x_adv.
Proof.
  unfold adversarial_input, adversarial_example.
  destruct (targeted (attack cfg)); [destruct (unpack_targets E y)|]; reflexivity.
Qed.

Lemma attack_phase_tracks cfg n est m :
  tracks f R (adversarial_batches E cfg n est) (attack_phase E cfg n est rir m).
Proof.
  unfold attack_phase.
  apply tracks_bind_l; [apply quiet_silent; emits_auto|]. intros _ _.
  apply tracks_bind_l; [apply quiet_silent; emits_auto|]. intros [[items la] lt] Hloaded.
  assert (Hinputs : map (adversarial_input E cfg la lt) items
                    = adversarial_batches E cfg n est).
  { unfold adversarial_batches.
    destruct (bool_decide (attack_type (attack cfg) = Some "preloaded")).
    - cbn in Hloaded. injection Hloaded as <- <- <-.
      rewrite map_map. apply map_ext. intros [[x x_adv] y].
      apply adversarial_input_replayed.
    - revert Hloaded. unfold log.
      destruct (negb (Bool.eqb (targeted (attack cfg))
                        (attack_targeted (load_attack E (attack cfg) est))));
        destruct (targeted (attack cfg)) eqn:Htargeted;
        try destruct (targeted_labels (attack cfg)) as [labels|];
        cbn; intros Hloaded; try discriminate Hloaded;
        injection Hloaded as <- <- <-;
        rewrite map_map; apply map_ext; intros [x y];
        unfold adversarial_input, adversarial_example; rewrite Htargeted;
        destruct (use_label (attack cfg)); reflexivity. }
  apply tracks_bind_l; [apply quiet_silent; emits_auto|]. intros ex _.
  apply tracks_bind_r.
  - rewrite <- Hinputs. apply tracks_for_each. intros item m'.
    apply attack_step_tracks.
  - intros m' _. apply quiet_silent. emits_auto.
Qed.

Lemma evaluate_tracks cfg n sb sa t0 est m0 :
  setup E cfg sb sa = (t0, Ok (est, m0)) →
  wav_read E (rir_path 1001) = Ok rir →
  tracks f R (rir_inputs E cfg n sb sa est) (_evaluate E cfg n sb sa false).
Proof.
  intros Hsetup Hread. unfold _evaluate, rir_inputs.
  apply tracks_bind_l.
  { apply quiet_silent. eapply emits_impl; [|apply setup_setup_events].
    intros e He. destruct e; cbn in *; congruence. }
  rewrite Hsetup. intros ready [= <-].
  apply tracks_bind_l.
  { rewrite Readrir_room_0. apply quiet_silent. repeat constructor. }
  rewrite Readrir_room_0, Hread. intros rir' [= <-].
  apply tracks_bind; [apply benign_phase_tracks|]. intros m _.
  destruct sa; [apply tracks_silent, quiet_silent; emits_auto|]. cbn [orb].
  destruct (match adhoc cfg with Present a => skip_adversarial a | _ => false end).
  - apply tracks_silent, quiet_silent. emits_auto.
  - apply attack_phase_tracks.
Qed.

End Tracking.

(** One batch of the benign loop: [create_speech_rir] is called on the
    batch with [rir], and what is predicted is its result. *)
Lemma benign_step_applied rir est item (m : Metrics E) :
  tracks applied (λ x b, b = (x, rir)) [fst item] (benign_step E est rir item m).
Proof.
  destruct item as [x y]. unfold benign_step. cbv beta iota.
  apply (tracks_bind applied _ [x] []).
  - now apply (tracks_emit applied _ _ x (x, rir)).
  - intros _ _. apply tracks_silent. emits_auto.
Qed.

Lemma benign_step_predicted rir est item (m : Metrics E) :
  tracks predicted (λ x x', create_speech_rir (fft_convolve E) x rir = Ok x')
         [fst item] (benign_step E est rir item m).
Proof.
  destruct item as [x y]. unfold benign_step. cbv beta iota.
  apply tracks_bind_l; [emits_auto|]. intros _ _.
  apply tracks_bind_l; [emits_auto|]. intros x' Hx'. cbn in Hx'.
  apply tracks_bind_l; [emits_auto|]. intros x0 _.
  apply tracks_bind_l; [emits_auto|]. intros _ _.
  apply tracks_bind_l; [emits_auto|]. intros _ _.
  apply tracks_bind_l; [emits_auto|]. intros _ _.
  apply tracks_bind_r.
  - now apply (tracks_emit predicted _ _ x x').
  - intros _ _. emits_auto.
Qed.

(** One batch of the attack loop, likewise, on the adversarial example. *)
Lemma attack_step_applied rir cfg est la lt ex item (m : Metrics E) :
  tracks applied (λ x b, b = (x, rir)) [adversarial_input E cfg la lt item]
         (attack_step E cfg est rir la lt ex item m).
Proof.
  unfold attack_step.
  apply tracks_bind_l; [emits_auto|]. intros _ _.
  apply tracks_bind_l; [unfold adversarial_example; emits_auto|].
  intros [[[x x_adv] y] y_target] Hgen.
  unfold adversarial_input. rewrite Hgen. cbv beta iota.
  apply (tracks_bind applied _ [x_adv] []).
  - now apply (tracks_emit applied _ _ x_adv (x_adv, rir)).
  - intros _ _. apply tracks_silent. emits_auto.
Qed.

Lemma attack_step_predicted rir cfg est la lt ex item (m : Metrics E) :
  tracks predicted (λ x x', create_speech_rir (fft_convolve E) x rir = Ok x')
         [adversarial_input E cfg la lt item]
         (attack_step E cfg est rir la lt ex item m).
Proof.
  unfold attack_step.
  apply tracks_bind_l; [emits_auto|]. intros _ _.
  apply tracks_bind_l; [unfold adversarial_example; emits_auto|].
  intros [[[x x_adv] y] y_target] Hgen.
  unfold adversarial_input. rewrite Hgen. cbv beta iota.
  apply tracks_bind_l; [emits_auto|]. intros _ _.
  apply tracks_bind_l; [emits_auto|]. intros x' Hx'. cbn in Hx'.
  apply tracks_bind_l; [emits_auto|]. intros _ _.
  apply tracks_bind_r.
  - now apply (tracks_emit predicted _ _ x_adv x').
  - intros _ _. emits_auto.
Qed.

Lemma applied_quiet e : rir_use e = false → applied e = None.
Proof. destruct e; cbn; congruence. Qed.

Lemma predicted_quiet e : rir_use e = false → predicted e = None.
Proof. destruct e; cbn; congruence. Qed.

Lemma Forall2_applied (rir : np.array) (handled : list batch)
    (calls : list (batch * np.array)) :
  Forall2 (λ x b, b = (x, rir)) handled calls →
  calls = map (λ x, (x, rir)) handled.
Proof. induction 1 as [|x b handled calls -> _ IH]; cbn; [|rewrite IH]; reflexivity. Qed.

(** After [setup], a run reads the one file and no other. *)
Lemma evaluate_reads_once cfg n sb sa t0 est m0 :
  setup E cfg sb sa = (t0, Ok (est, m0)) →
  ∃ post, trace (_evaluate E cfg n sb sa false) = t0 ++ WavRead (rir_path 1001) :: post ∧
    Forall (λ e, is_wav_read e = false) (t0 ++ post) ∧
    (∀ e, wav_read E (rir_path 1001) = Raise e →
          post = [] ∧ outcome (_evaluate E cfg n sb sa false) = Raise e).
Proof.
  intros Hsetup.
  pose proof (setup_setup_events cfg sb sa) as Ht0.
  unfold _evaluate, emits in *. rewrite Hsetup in Ht0 |- *. cbn [trace fst] in Ht0.
  rewrite trace_bind, outcome_bind. cbn [trace outcome fst snd].
  rewrite trace_bind, outcome_bind, Readrir_room_0. cbn [trace outcome fst snd].
  eexists. split; [reflexivity|]. split.
  - apply Forall_app. split.
    + eapply Forall_impl; [exact Ht0|]. intros e He. destruct e; cbn in *; congruence.
    + destruct (wav_read E (rir_path 1001)) as [rir|e]; [|constructor].
      change (emits (λ e, is_wav_read e = false)
                (metrics_logger <- benign_phase E cfg n sb est rir m0 ;;
                 if sa then
                   log INFO "Skipping attack generation..." ;;
                   emit MetricsResults ;;
                   ret (results E metrics_logger)
                 else if match adhoc cfg with
                         | Present a => skip_adversarial a
                         | _ => false
                         end then
                   log INFO "Skipping adversarial classification..." ;;
                   emit MetricsResults ;;
                   ret (results E metrics_logger)
                 else attack_phase E cfg n est rir metrics_logger)).
      unfold benign_phase, benign_step, attack_phase, attack_step,
        adversarial_example. emits_auto.
  - intros e ->. split; reflexivity.
Qed.

(** C8, as stated, fails: a run that is asked to skip misclassified
    examples stops before line 240, and has read no impulse response. *)
Lemma rir_not_read_when_run_fails_fast :
  let run := _evaluate demo_collaborators demo_config None false false true in
  outcome run
  = Raise (ValueError "skip_misclassified shouldn't be set for ASR scenario") ∧
  count_events is_wav_read (trace run) = 0%nat.
Proof. split; reflexivity. Qed.

(** C8, amended: [Readrir k] reads the file of index [k + 1001], and room
    0 is the file [..._rir_1001.wav].  A run in which [setup] returns
    reads that file exactly once, after [setup], which has called neither
    [create_speech_rir] nor the estimator, and reads no other file; if the
    read raises, the run ends there.  Otherwise the calls of
    [create_speech_rir] are, in order, on the batches of the benign phase
    and then on the adversarial examples of the attack phase, each with
    the array that was read, up to the batch at which the run stops, and
    on all of them when the run returns; and the batches handed to the
    estimator are, in the same order, the results of [create_speech_rir]
    on these batches with that array. *)
Theorem rir_read_once_and_applied_to_every_batch
    (cfg : config) (num_eval_batches : option Z) (skip_benign skip_attack : bool)
    (t0 : list event) (est : estimator (Model E)) (m0 : Metrics E) :
  setup E cfg skip_benign skip_attack = (t0, Ok (est, m0)) →
  let run := _evaluate E cfg num_eval_batches skip_benign skip_attack false in
  let inputs := rir_inputs E cfg num_eval_batches skip_benign skip_attack est in
  let file := rir_path (rir_index 0) in
  (∀ k, Readrir (wav_read E) k
        = ([WavRead (rir_path (k + 1001))], wav_read E (rir_path (k + 1001)))) ∧
  file = "./rir/LibriSpeech/test-clean/3575/170457/3575-170457-0013_rir_1001.wav" ∧
  (∃ post, trace run = t0 ++ WavRead file :: post ∧
           Forall (λ e, is_wav_read e = false) (t0 ++ post)) ∧
  count_events is_wav_read (trace run) = 1%nat ∧
  omap applied t0 = [] ∧ omap predicted t0 = [] ∧
  match wav_read E file with
  | Raise e => run = (t0 ++ [WavRead file], Raise e)
  | Ok rir =>
      (∃ handled, handled `prefix_of` inputs ∧
         omap applied (trace run) = map (λ x, (x, rir)) handled) ∧
      (∃ handled, handled `prefix_of` inputs ∧
         Forall2 (λ x x', create_speech_rir (fft_convolve E) x rir = Ok x')
                 handled (omap predicted (trace run))) ∧
      (∀ r, outcome run = Ok r →
         omap applied (trace run) = map (λ x, (x, rir)) inputs ∧
         Forall2 (λ x x', create_speech_rir (fft_convolve E) x rir = Ok x')
                 inputs (omap predicted (trace run)))
  end.
Proof.
  intros Hsetup run inputs file. subst run inputs file.
  change (rir_path (rir_index 0)) with (rir_path 1001).
  destruct (evaluate_reads_once cfg num_eval_batches skip_benign skip_attack
              t0 est m0 Hsetup) as (post & Htrace & Hpost & Hfail).
  pose proof (setup_setup_events cfg skip_benign skip_attack) as Ht0.
  unfold emits in Ht0. rewrite Hsetup in Ht0. cbn [trace fst] in Ht0.
  split; [apply Readrir_spec|]. split; [reflexivity|].
  split; [exists post; auto|]. split; [|split; [|split]].
  - rewrite Htrace. apply Forall_app in Hpost as [H0 Hp].
    rewrite count_events_app, (count_events_none _ _ H0).
    change (WavRead (rir_path 1001) :: post) with ([WavRead (rir_path 1001)] ++ post).
    rewrite count_events_app, (count_events_none _ _ Hp). reflexivity.
  - apply omap_none_nil. eapply Forall_impl; [exact Ht0|].
    intros e He. destruct e; cbn in *; congruence.
  - apply omap_none_nil. eapply Forall_impl; [exact Ht0|].
    intros e He. destruct e; cbn in *; congruence.
  - destruct (wav_read E (rir_path 1001)) as [rir|e] eqn:Hread.
    + destruct (evaluate_tracks applied (λ x b, b = (x, rir)) rir applied_quiet
                  (benign_step_applied rir)
                  (λ cfg est la lt ex item m,
                     attack_step_applied rir cfg est la lt ex item m)
                  cfg num_eval_batches skip_benign skip_attack t0 est m0 Hsetup Hread)
        as (ha & Hpa & HFa & Halla).
      destruct (evaluate_tracks predicted
                  (λ x x', create_speech_rir (fft_convolve E) x rir = Ok x')
                  rir predicted_quiet (benign_step_predicted rir)
                  (λ cfg est la lt ex item m,
                     attack_step_predicted rir cfg est la lt ex item m)
                  cfg num_eval_batches skip_benign skip_attack t0 est m0 Hsetup Hread)
        as (hp & Hpp & HFp & Hallp).
      split; [exists ha; split; [exact Hpa | now apply Forall2_applied]|].
      split; [exists hp; split; assumption|].
      intros r Hr. rewrite (Halla r Hr) in HFa. rewrite (Hallp r Hr) in HFp.
      split; [now apply Forall2_applied | exact HFp].
    + destruct (Hfail e eq_refl) as [-> Hout].
      rewrite (M_eta (_evaluate E cfg num_eval_batches skip_benign skip_attack false)).
      now rewrite Htrace, Hout.
Qed.

End Orchestrator.

Lemma skip_attack_returns_benign_results_witness :
  Forall (λ e, attack_event e = false)
         (trace (_evaluate demo_collaborators demo_config None false true false)) ∧
  outcome (_evaluate demo_collaborators demo_config None false true false)
  = Ok [(false, false)].
Proof.
  destruct (skip_attack_returns_benign_results demo_collaborators demo_config
              None false true (or_introl eq_refl)) as [Htrace Hout].
  split; [exact Htrace|]. rewrite Hout. vm_compute. reflexivity.
Defined.

Lemma rir_read_once_and_applied_to_every_batch_witness :
  let run := _evaluate demo_collaborators
               (demo_config_with (adhoc demo_config) demo_preloaded_attack
                  (scenario demo_config))
               None false false false in
  count_events is_wav_read (trace run) = 1%nat ∧
  omap applied (trace run)
  = [([[1; 0.5]%float], [1%float]); ([[0.5; 1]%float], [1%float])] ∧
  Forall2 (λ x x', create_speech_rir direct_convolve x [1%float] = Ok x')
          [[[1; 0.5]%float]; [[0.5; 1]%float]] (omap predicted (trace run)).
Proof.
  pose proof (rir_read_once_and_applied_to_every_batch demo_collaborators
                (demo_config_with (adhoc demo_config) demo_preloaded_attack
                   (scenario demo_config))
                None false false
                [LoadModel; Log INFO "loading audio channel";
                 NewLFilterPyTorch [1; 0; 0.5]%float [1; 0; 0]%float;
                 UpdatePreprocessingOperations; MetricsFromConfig false false false]
                {| est_model := tt;
                   preprocessing_defences :=
                     [Channel (LFilterPyTorch [1; 0; 0.5]%float [1; 0; 0]%float)] |}
                [] eq_refl) as H.
  cbv zeta in H. destruct H as (_ & _ & _ & Hcount & _ & _ & Hrir).
  assert (Hread : wav_read demo_collaborators (rir_path (rir_index 0)) = Ok [1%float])
    by reflexivity.
  rewrite Hread in Hrir. destruct Hrir as (_ & _ & Hall).
  destruct (Hall [(false, false); (true, false)] eq_refl) as [Happlied Hpredicted].
  split; [exact Hcount|]. split; [exact Happlied | exact Hpredicted].
Defined.

(** ** The store: what [create_speech_rir] writes *)

Module StoreFacts.

Lemma alloc_fresh (v : ndarray) (h : Store.heap) :
  ∃ l, Store.alloc v h = (<[l := v]> h, Ok l) ∧ h !! l = None.
Proof.
  exists (fresh (dom h)). split; [reflexivity|].
  apply not_elem_of_dom. apply is_fresh.
Qed.

Section Convolver.

Variable fft : np.array → np.array → nat → np.array.

(** One row: the store only grows, and the view that is returned shows
    the row that the function on values computes. *)
Lemma speech_rir_row_spec (h : Store.heap) (la lr : Store.loc)
    (audios : list np.array) (rir : np.array) (i : nat) (x : np.array) :
  h !! la = Some (Arr2 audios) → h !! lr = Some (Arr1 rir) →
  audios !! i = Some x →
  ∃ h', fst (Store.speech_rir_row fft la lr i h) = h' ∧ h ⊆ h' ∧
    match speech_rir_row fft rir x with
    | Ok out =>
        ∃ l padded, snd (Store.speech_rir_row fft la lr i h) = Ok (l, length x) ∧
          h' !! l = Some (Arr1 padded) ∧ take (length x) padded = out
    | Raise e => snd (Store.speech_rir_row fft la lr i h) = Raise e
    end.
Proof.
  intros Hla Hlr Hi.
  unfold Store.speech_rir_row, speech_rir_row, Store.row, Store.sbind,
    Store.load2, Store.load1, Store.store1, Store.sret, Store.sraise,
    Store.slift.
  rewrite Hla, Hi, Hlr.
  destruct (Z.of_nat (length x) + Z.of_nat (length rir) - 1 <? 1).
  { exists h. repeat split; reflexivity. }
  set (conv := fft rir x _).
  destruct (alloc_fresh (Arr1 conv) h) as (l1 & -> & Hl1). cbv beta iota.
  rewrite lookup_insert_eq. cbv beta iota.
  destruct (np.amax (np.absolute conv)) as [m|e].
  2:{ eexists. split; [reflexivity|]. split; [|reflexivity].
      now apply insert_subseteq. }
  repeat (cbv beta iota;
          first [rewrite lookup_insert_eq | rewrite insert_insert_eq]).
  set (clipped := np.clip _ _ _).
  set (h1 := <[l1 := _]> h).
  assert (Hh1 : h ⊆ h1) by now apply insert_subseteq.
  destruct (alloc_fresh (Arr1 clipped) h1) as (l2 & -> & Hl2). cbv beta iota.
  rewrite lookup_insert_eq. cbv beta iota.
  set (h2 := <[l2 := _]> h1).
  assert (Hh2 : h1 ⊆ h2) by now apply insert_subseteq.
  destruct (alloc_fresh (Arr1 (np.pad_after clipped pad_samples)) h2)
    as (l3 & -> & Hl3). cbv beta iota.
  eexists. split; [reflexivity|]. split.
  { etrans; [exact Hh1|]. etrans; [exact Hh2|]. now apply insert_subseteq. }
  exists l3. eexists. cbn [fst snd]. rewrite Nat2Z.id.
  split; [reflexivity|]. split; [apply lookup_insert_eq | reflexivity].
Qed.

Lemma shows_rows_weaken (h h' : Store.heap) views outs :
  h ⊆ h' → shows_rows h views outs → shows_rows h' views outs.
Proof.
  intros Hsub Hshows. unfold shows_rows in *.
  eapply Forall2_impl; [exact Hshows|].
  intros view out (padded & Hl & Htake). exists padded. split; [|exact Htake].
  eapply lookup_weaken; eauto.
Qed.

(** The loop, from row [length done] on. *)
Lemma rows_loop_spec (la lr : Store.loc) (rir : np.array) (rest : list np.array) :
  ∀ (done : list np.array) views acc (h : Store.heap),
  h !! la = Some (Arr2 (done ++ rest)) → h !! lr = Some (Arr1 rir) →
  shows_rows h views acc →
  ∃ h', fst (Store.rows_loop fft la lr
               (seq (length done) (length rest)) views h) = h' ∧ h ⊆ h' ∧
    match create_speech_rir fft rest rir with
    | Ok outs =>
        ∃ views', snd (Store.rows_loop fft la lr
                         (seq (length done) (length rest)) views h) = Ok views' ∧
                  shows_rows h' views' (acc ++ outs)
    | Raise e => snd (Store.rows_loop fft la lr
                        (seq (length done) (length rest)) views h) = Raise e
    end.
Proof.
  induction rest as [|x rest IH]; intros done views acc h Hla Hlr Hviews.
  - exists h. split; [reflexivity|]. split; [reflexivity|].
    exists views. split; [reflexivity|]. now rewrite app_nil_r.
  - cbn [length seq Store.rows_loop create_speech_rir]. unfold Store.sbind.
    destruct (speech_rir_row_spec h la lr (done ++ x :: rest) rir (length done) x
                Hla Hlr (list_lookup_middle _ _ _ _ eq_refl))
      as (h1 & Hfst & Hsub1 & Hrow).
    destruct (Store.speech_rir_row fft la lr (length done) h) as [h1' r].
    cbn [fst snd] in Hfst, Hrow. subst h1'.
    destruct (speech_rir_row fft rir x) as [out|e]; cbn [rbind].
    2:{ subst r. exists h1. split; [reflexivity|].
        split; [exact Hsub1 | reflexivity]. }
    destruct Hrow as (l & padded & -> & Hl & Htake).
    destruct (IH (done ++ [x]) (views ++ [(l, length x)]) (acc ++ [out]) h1)
      as (h2 & Hfst2 & Hsub2 & Hrest).
    { rewrite <- app_assoc. cbn [app]. eapply lookup_weaken; eauto. }
    { eapply lookup_weaken; eauto. }
    { apply Forall2_app; [eapply shows_rows_weaken; eauto|].
      repeat constructor. exists padded. split; assumption. }
    rewrite length_app in Hfst2, Hrest. cbn [length] in Hfst2, Hrest.
    rewrite Nat.add_1_r in Hfst2, Hrest.
    exists h2. split; [exact Hfst2|]. split; [etrans; eassumption|].
    destruct (create_speech_rir fft rest rir) as [outs|e]; cbn [rbind].
    + destruct Hrest as (views' & Hsnd & Hshows). exists views'.
      split; [exact Hsnd|]. now rewrite <- app_assoc in Hshows.
    + exact Hrest.
Qed.

Lemma read_views_spec (h : Store.heap) views outs :
  shows_rows h views outs → Store.read_views views h = (h, Ok outs).
Proof.
  induction 1 as [|[l n] out views outs (padded & Hl & Htake) _ IH].
  - reflexivity.
  - cbn [Store.read_views]. unfold Store.sbind, Store.load1, Store.sret.
    cbn [fst snd] in Hl, Htake. rewrite Hl, IH, Htake. reflexivity.
Qed.

(** C9: a call of [create_speech_rir] on a batch and an impulse response
    held in the store leaves every array that existed before the call
    as it was, the batch and the impulse response among them; what it
    returns is an array that did not exist before, holding the rows
    that [create_speech_rir] computes from the values, and it raises
    exactly when that function does. *)
Theorem create_speech_rir_leaves_input_unmodified
    (h : Store.heap) (la lr : Store.loc)
    (audios : list np.array) (rir : np.array) :
  h !! la = Some (Arr2 audios) →
  h !! lr = Some (Arr1 rir) →
  ∃ h', fst (Store.create_speech_rir fft la lr h) = h' ∧
    h' !! la = Some (Arr2 audios) ∧
    h' !! lr = Some (Arr1 rir) ∧
    (∀ l v, h !! l = Some v → h' !! l = Some v) ∧
    match create_speech_rir fft audios rir with
    | Ok out =>
        ∃ lo, snd (Store.create_speech_rir fft la lr h) = Ok lo ∧
              h !! lo = None ∧ h' !! lo = Some (Arr2 out)
    | Raise e => snd (Store.create_speech_rir fft la lr h) = Raise e
    end.
Proof.
  intros Hla Hlr.
  assert (Hgoal : ∃ h', fst (Store.create_speech_rir fft la lr h) = h' ∧ h ⊆ h' ∧
            match create_speech_rir fft audios rir with
            | Ok out =>
                ∃ lo, snd (Store.create_speech_rir fft la lr h) = Ok lo ∧
                      h !! lo = None ∧ h' !! lo = Some (Arr2 out)
            | Raise e => snd (Store.create_speech_rir fft la lr h) = Raise e
            end).
  { unfold Store.create_speech_rir, Store.sbind, Store.load2. rewrite Hla.
    assert (Hnil : shows_rows h [] []) by constructor.
    destruct (rows_loop_spec la lr rir audios [] [] [] h Hla Hlr Hnil)
      as (h1 & Hfst & Hsub1 & Hloop).
    cbn [length app] in Hfst, Hloop.
    destruct (Store.rows_loop fft la lr (seq 0 (length audios)) [] h) as [h1' r].
    cbn [fst snd] in Hfst, Hloop. subst h1'.
    destruct (create_speech_rir fft audios rir) as [out|e].
    2:{ subst r. exists h1. split; [reflexivity|].
        split; [exact Hsub1 | reflexivity]. }
    destruct Hloop as (views & -> & Hshows).
    rewrite (read_views_spec h1 views out Hshows).
    destruct (alloc_fresh (Arr2 out) h1) as (lo & -> & Hlo).
    eexists. split; [reflexivity|]. split.
    { etrans; [exact Hsub1|]. now apply insert_subseteq. }
    exists lo. cbn [fst snd]. split; [reflexivity|]. split.
    - eapply lookup_weaken_None; eauto.
    - apply lookup_insert_eq. }
  destruct Hgoal as (h' & Hfst & Hsub & Hres).
  exists h'. split; [exact Hfst|].
  split; [eapply lookup_weaken; eauto|].
  split; [eapply lookup_weaken; eauto|].
  split; [intros l v Hl; eapply lookup_weaken; eauto | exact Hres].
Qed.

End Convolver.

End StoreFacts.

Lemma create_speech_rir_leaves_input_unmodified_witness :
  fst (Store.create_speech_rir direct_convolve 1%positive 2%positive demo_heap)
    !! 1%positive = Some (Arr2 [[1; 0.5]%float]) ∧
  ∃ lo, snd (Store.create_speech_rir direct_convolve 1%positive 2%positive demo_heap)
          = Ok lo ∧ demo_heap !! lo = None.
Proof.
  destruct (StoreFacts.create_speech_rir_leaves_input_unmodified direct_convolve
              demo_heap 1%positive 2%positive [[1; 0.5]%float] [1%float]
              eq_refl eq_refl)
    as (h' & <- & Hla & _ & _ & Hout).
  split; [exact Hla|].
  replace (create_speech_rir direct_convolve [[1; 0.5]%float] [1%float])
    with (Ok (A := list np.array) [[32767; 16383.5]%float]) in Hout
    by (vm_compute; reflexivity).
  destruct Hout as (lo & Hsnd & Hfresh & _). exists lo. split; assumption.
Defined.

(** * Further properties of the code *)

(** ** NaN in binary64 *)

Lemma SFcompare_refl_nan (x : spec_float) : SFcompare x x ≠ Some Eq → x = S754_nan.
Proof.
  destruct x as [[|]|[|]| |[|] m e]; simpl; try congruence.
  - rewrite Z.compare_refl, Pos.compare_cont_refl. simpl. congruence.
  - rewrite Z.compare_refl, Pos.compare_cont_refl. congruence.
Qed.

Lemma is_nan_eq (v : float) : is_nan v = true → v = nan.
Proof.
  unfold is_nan. rewrite FloatAxioms.eqb_spec. unfold SFeqb. intros H.
  rewrite <- (SF2Prim_Prim2SF v).
  rewrite (SFcompare_refl_nan (Prim2SF v)); [reflexivity|].
  intros Heq. rewrite Heq in H. discriminate.
Qed.

Lemma div_by_nan (v : float) : (v / nan)%float = nan.
Proof.
  apply Prim2SF_inj. rewrite div_spec.
  change (Prim2SF nan) with S754_nan.
  unfold SF64div, SFdiv. now destruct (Prim2SF v) as [[|]|[|]| |[|] m e].
Qed.

Lemma maximum_nan_l (b : float) : np.maximum nan b = nan.
Proof. reflexivity. Qed.

Lemma maximum_nan_r (a : float) : np.maximum a nan = nan.
Proof.
  unfold np.maximum. destruct (is_nan a) eqn:Ha; [now apply is_nan_eq | reflexivity].
Qed.

Lemma fold_maximum_nan (vs : list float) : fold_left np.maximum vs nan = nan.
Proof. induction vs as [|v vs IH]; [reflexivity|]. cbn [fold_left]. exact IH. Qed.

Lemma fold_maximum_exists_nan (vs : list float) (acc : float) :
  Exists (λ v, v = nan) vs → fold_left np.maximum vs acc = nan.
Proof.
  revert acc. induction vs as [|v vs IH]; intros acc Hex; [inversion Hex|].
  cbn [fold_left]. apply Exists_cons in Hex as [-> | Hex].
  - rewrite maximum_nan_r. apply fold_maximum_nan.
  - now apply IH.
Qed.

(** [np.amax] of the magnitudes of an array that holds a NaN is NaN. *)
Lemma amax_absolute_nan (a : np.array) :
  Exists (λ v, is_nan v = true) a → np.amax (np.absolute a) = Ok nan.
Proof.
  intros Hex.
  assert (Habs : Exists (λ v, v = nan) (np.absolute a)).
  { unfold np.absolute. apply Exists_fmap. eapply Exists_impl; [exact Hex|].
    intros v Hv. cbn. now rewrite (is_nan_eq v Hv). }
  destruct (np.absolute a) as [|v vs]; [inversion Habs|].
  cbn [np.amax]. f_equal. apply Exists_cons in Habs as [-> | Habs].
  - apply fold_maximum_nan.
  - now apply fold_maximum_exists_nan.
Qed.

(** With a NaN maximum every sample is normalised to NaN. *)
Lemma map_normalise_nan (a : np.array) :
  map (λ v, np.clip1 int16_min int16_max (v / nan * int16_max)%float) a
  = replicate (length a) nan.
Proof.
  induction a as [|v vs IH]; [reflexivity|].
  cbn [map length replicate]. rewrite div_by_nan, IH. reflexivity.
Qed.

(** ** More on [create_speech_rir] *)

(** What a returning loop body returned; no assumption on the transform. *)
Lemma speech_rir_row_inv
    (fft : np.array → np.array → nat → np.array) (rir x out : np.array) :
  speech_rir_row fft rir x = Ok out →
  (2 ≤ length x + length rir)%nat ∧
  ∃ m, np.amax (np.absolute (fft rir x (length x + length rir - 1)%nat)) = Ok m ∧
       out = take (length x)
               (np.pad_after
                  (np.clip (np.imul (np.idiv
                     (fft rir x (length x + length rir - 1)%nat) m) int16_max)
                     int16_min int16_max)
                  pad_samples).
Proof.
  unfold speech_rir_row.
  destruct (Z.ltb_spec (Z.of_nat (length x) + Z.of_nat (length rir) - 1) 1) as [|Hge];
    [discriminate|].
  replace (Z.to_nat (Z.of_nat (length x) + Z.of_nat (length rir) - 1))
    with (length x + length rir - 1)%nat by lia.
  intros (m & Hm & Hout)%rbind_ok. split; [lia|]. exists m. split; [exact Hm|].
  rewrite Nat2Z.id in Hout. now injection Hout as <-.
Qed.

Lemma speech_rir_row_too_short
    (fft : np.array → np.array → nat → np.array) (rir x : np.array) :
  (length x + length rir ≤ 1)%nat →
  ∃ msg, speech_rir_row fft rir x = Raise (ValueError msg).
Proof.
  intros Hshort. unfold speech_rir_row.
  destruct (Z.ltb_spec (Z.of_nat (length x) + Z.of_nat (length rir) - 1) 1); [|lia].
  eexists; reflexivity.
Qed.

(** X3: every sample that [create_speech_rir] returns is NaN or lies in the
    16-bit range, whatever the transform computes. *)
Theorem create_speech_rir_samples_bounded
    (fft : np.array → np.array → nat → np.array)
    (audios : list np.array) (rir : np.array) (out : list np.array) :
  create_speech_rir fft audios rir = Ok out →
  Forall (Forall (λ v, is_nan v = true ∨ in_int16 v = true)) out.
Proof.
  revert out. induction audios as [|x rest IH]; intros out; cbn [create_speech_rir].
  { intros [= <-]. constructor. }
  intros (o & Ho & (os & Hos & [= <-])%rbind_ok)%rbind_ok.
  constructor; [|now apply IH].
  apply speech_rir_row_inv in Ho as (_ & m & _ & ->).
  apply Forall_take. unfold np.pad_after. apply Forall_app. split.
  - unfold np.clip. apply Forall_map, Forall_forall. intros v _.
    apply clip1_nan_or_in_int16.
  - apply Forall_replicate. right. reflexivity.
Qed.

Lemma create_speech_rir_samples_bounded_witness :
  Forall (Forall (λ v, is_nan v = true ∨ in_int16 v = true))
         [[32767; 32767; 0]%float; [nan; nan]].
Proof.
  apply (create_speech_rir_samples_bounded direct_convolve
           [[1; 0.5; -0.25]%float; [0; 0]%float] [0.5; 0.25]%float).
  vm_compute. reflexivity.
Defined.

Section RIRConvolverMore.

Variable fft : np.array → np.array → nat → np.array.
Hypothesis fft_length : ∀ r x n, (0 < n)%nat → length (fft r x n) = n.

(** X1: with a transform that returns as many samples as it is asked for,
    [create_speech_rir] returns exactly when every waveform and the impulse
    response have at least two samples together; otherwise it raises the
    [ValueError] of the transform, and some waveform is too short. *)
Theorem create_speech_rir_returns_iff (audios : list np.array) (rir : np.array) :
  match create_speech_rir fft audios rir with
  | Ok _ => Forall (λ x, (2 ≤ length x + length rir)%nat) audios
  | Raise e => (∃ msg, e = ValueError msg) ∧
               Exists (λ x, (length x + length rir ≤ 1)%nat) audios
  end.
Proof.
  induction audios as [|x rest IH]; cbn [create_speech_rir]; [constructor|].
  destruct (le_lt_dec (length x + length rir) 1) as [Hshort|Hlong].
  - destruct (speech_rir_row_too_short fft rir x Hshort) as [msg ->].
    cbn [rbind]. split; [eauto | now left].
  - destruct (speech_rir_row_ok fft fft_length rir x) as (m & _ & ->); [lia|].
    cbn [rbind]. destruct (create_speech_rir fft rest rir) as [os|e]; cbn [rbind].
    + constructor; [lia | exact IH].
    + destruct IH as [He Hex]. split; [exact He | now right].
Qed.

(** X5: with an impulse response of at least one sample the padding never
    shows: sample [i] of a returned row is sample [i] of the convolution,
    divided by the maximum magnitude, scaled and clipped, and the tail of
    the convolution is dropped. *)
Theorem speech_rir_row_is_normalised_prefix (rir x out : np.array) :
  (1 ≤ length rir)%nat →
  speech_rir_row fft rir x = Ok out →
  ∃ m, np.amax (np.absolute (fft rir x (length x + length rir - 1))) = Ok m ∧
    length out = length x ∧
    ∀ i, (i < length x)%nat →
      out !! i = (λ v, np.clip1 int16_min int16_max (v / m * int16_max)%float)
                   <$> fft rir x (length x + length rir - 1) !! i.
Proof.
  intros Hr (Hlen & m & Hm & ->)%speech_rir_row_inv.
  exists m. split; [exact Hm|].
  set (conv := fft rir x (length x + length rir - 1)).
  assert (Hconv : length conv = (length x + length rir - 1)%nat)
    by (apply fft_length; lia).
  unfold np.pad_after, np.clip, np.imul, np.idiv. rewrite !map_map.
  rewrite take_app_le by (rewrite length_map; lia). split.
  - rewrite length_take, length_map. lia.
  - intros i Hi. unfold np.array in *.
    rewrite lookup_take_lt by exact Hi. apply list_lookup_fmap.
Qed.

(** X4: the normalisation is global: one NaN among the samples of the
    convolution of a waveform makes every sample of the returned row NaN. *)
Theorem speech_rir_row_nan_poisons_row (rir x : np.array) :
  (1 ≤ length x)%nat → (1 ≤ length rir)%nat →
  Exists (λ v, is_nan v = true) (fft rir x (length x + length rir - 1)) →
  speech_rir_row fft rir x = Ok (replicate (length x) nan).
Proof.
  intros Hx Hr Hnan.
  destruct (speech_rir_row_ok fft fft_length rir x) as (m & Hm & Hrow); [lia|].
  rewrite (amax_absolute_nan _ Hnan) in Hm. injection Hm as <-.
  rewrite Hrow. f_equal.
  unfold np.pad_after, np.clip, np.imul, np.idiv. rewrite !map_map.
  rewrite take_app_le by (rewrite length_map, fft_length; lia).
  rewrite map_normalise_nan, fft_length, take_replicate by lia.
  f_equal. lia.
Qed.

End RIRConvolverMore.

Lemma create_speech_rir_returns_iff_witness :
  match create_speech_rir direct_convolve [[1; 0.5]%float; []] [1%float] with
  | Ok _ => Forall (λ x, (2 ≤ length x + length [1%float])%nat) [[1; 0.5]%float; []]
  | Raise e => (∃ msg, e = ValueError msg) ∧
               Exists (λ x, (length x + length [1%float] ≤ 1)%nat) [[1; 0.5]%float; []]
  end.
Proof.
  exact (create_speech_rir_returns_iff direct_convolve
           (λ r x n _, direct_convolve_length r x n) [[1; 0.5]%float; []] [1%float]).
Defined.

Lemma speech_rir_row_is_normalised_prefix_witness :
  ∃ m, np.amax (np.absolute
         (direct_convolve [0.5; 0.25]%float [1; 0.5; -0.25]%float 4)) = Ok m ∧
    length [32767; 32767; 0]%float = 3%nat ∧
    ∀ i, (i < 3)%nat →
      [32767; 32767; 0]%float !! i
      = (λ v, np.clip1 int16_min int16_max (v / m * int16_max)%float)
          <$> direct_convolve [0.5; 0.25]%float [1; 0.5; -0.25]%float 4 !! i.
Proof.
  apply (speech_rir_row_is_normalised_prefix direct_convolve
           (λ r x n _, direct_convolve_length r x n)
           [0.5; 0.25]%float [1; 0.5; -0.25]%float [32767; 32767; 0]%float).
  - simpl; lia.
  - vm_compute; reflexivity.
Defined.

Lemma speech_rir_row_nan_poisons_row_witness :
  speech_rir_row direct_convolve [1%float] [nan; 1%float] = Ok [nan; nan].
Proof.
  apply (speech_rir_row_nan_poisons_row direct_convolve
           (λ r x n _, direct_convolve_length r x n) [1%float] [nan; 1%float]).
  - simpl; lia.
  - simpl; lia.
  - apply Exists_cons_hd. vm_compute. reflexivity.
Defined.

(** ** More on [load_audio_channel] *)

(** The coefficient vectors that [channel_coefs] returns: the identity
    pair, or the two-tap pair. *)
Lemma channel_coefs_ok_inv (P : platform) (d : Z) (a : float) (num den : np.array) :
  0 ≤ d →
  outcome (channel_coefs P d a) = Ok (num, den) →
  length num = length den ∧ num !! 0%nat = Some 1%float ∧
  ∃ n, den = 1%float :: replicate n 0%float.
Proof.
  intros Hd.
  destruct (decide (d = 0 ∨ (a =? 0)%float = true)) as [Hid|Hn].
  - rewrite (channel_coefs_identity P d a Hid). intros [= <- <-].
    repeat split. exists 0%nat. reflexivity.
  - assert (Hpos : 0 < d) by (destruct (decide (d = 0)); [tauto | lia]).
    assert (Ha : (a =? 0)%float = false)
      by (destruct (a =? 0)%float; [tauto | reflexivity]).
    destruct (coefs_fit P d) eqn:Hfit.
    + rewrite (channel_coefs_two_tap_run P d a Hpos Ha Hfit). intros [= <- <-].
      split; [|split; [reflexivity | eauto]].
      cbn [length]. rewrite length_app, !length_replicate. cbn [length]. lia.
    + destruct (channel_coefs_refused P d a Hpos Ha Hfit) as [e ->]. discriminate.
Qed.

(** When [channel_coefs] returns, for a delay that is not negative. *)
Lemma channel_coefs_returns (P : platform) (d : Z) (a : float) :
  0 ≤ d →
  (∃ coefs, outcome (channel_coefs P d a) = Ok coefs) ↔
  d = 0 ∨ (a =? 0)%float = true ∨ coefs_fit P d = true.
Proof.
  intros Hd.
  destruct (decide (d = 0 ∨ (a =? 0)%float = true)) as [Hid|Hn].
  - rewrite (channel_coefs_identity P d a Hid). split; [tauto | eauto].
  - assert (Hpos : 0 < d) by (destruct (decide (d = 0)); [tauto | lia]).
    assert (Ha : (a =? 0)%float = false)
      by (destruct (a =? 0)%float; [tauto | reflexivity]).
    destruct (coefs_fit P d) eqn:Hfit.
    + rewrite (channel_coefs_two_tap_run P d a Hpos Ha Hfit). split; eauto.
    + destruct (channel_coefs_refused P d a Hpos Ha Hfit) as [e ->]. split.
      * intros [coefs [=]].
      * intros [?|[?|[=]]]; tauto.
Qed.

(** The whole call, once the conversions succeeded and the delay is not
    negative. *)
Lemma load_audio_channel_run
    (P : platform) (delay attenuation : pynum) (pytorch : bool)
    (d : Z) (a : float) (num den : np.array) :
  py_int delay = Ok d → py_float attenuation = Ok a → 0 ≤ d →
  outcome (channel_coefs P d a) = Ok (num, den) →
  load_audio_channel P delay attenuation pytorch
  = (trace (channel_coefs P d a)
       ++ backend_events (torch_available P) pytorch num den,
     Ok (backend_filter (torch_available P) pytorch num den)).
Proof.
  intros Hd Ha Hnonneg Hcoefs. unfold load_audio_channel.
  rewrite Hd, Ha, !bind_lift_ok.
  destruct (Z.ltb_spec d 0) as [|_]; [lia|].
  destruct (channel_coefs P d a) as [t r]. cbn [outcome snd] in Hcoefs. subst r.
  cbn [trace fst]. destruct pytorch, (torch_available P); reflexivity.
Qed.

(** The call when [channel_coefs] raises. *)
Lemma load_audio_channel_coefs_raise
    (P : platform) (delay attenuation : pynum) (pytorch : bool)
    (d : Z) (a : float) (e : exn) :
  py_int delay = Ok d → py_float attenuation = Ok a → 0 ≤ d →
  outcome (channel_coefs P d a) = Raise e →
  load_audio_channel P delay attenuation pytorch
  = (trace (channel_coefs P d a), Raise e).
Proof.
  intros Hd Ha Hnonneg Hcoefs. unfold load_audio_channel.
  rewrite Hd, Ha, !bind_lift_ok.
  destruct (Z.ltb_spec d 0) as [|_]; [lia|].
  destruct (channel_coefs P d a) as [t r]. cbn [outcome snd] in Hcoefs. subst r.
  reflexivity.
Qed.

Lemma load_audio_channel_ok_inv
    (P : platform) (delay attenuation : pynum) (pytorch : bool) (c : lfilter) :
  outcome (load_audio_channel P delay attenuation pytorch) = Ok c →
  ∃ d a num den, py_int delay = Ok d ∧ py_float attenuation = Ok a ∧ 0 ≤ d ∧
    outcome (channel_coefs P d a) = Ok (num, den).
Proof.
  unfold load_audio_channel.
  destruct (py_int delay) as [d|e]; [|discriminate].
  destruct (py_float attenuation) as [a|e]; [|discriminate].
  rewrite !bind_lift_ok. destruct (Z.ltb_spec d 0) as [|Hd]; [discriminate|].
  destruct (channel_coefs P d a) as [t [[num den]|e]] eqn:Hcoefs; [|discriminate].
  intros _. exists d, a, num, den. rewrite Hcoefs. repeat split. exact Hd.
Qed.

(** X6: [load_audio_channel] returns a filter exactly when [int(delay)] and
    [float(attenuation)] succeed, the delay is not negative, and the
    channel is the identity or numpy allocates its two arrays of
    [delay + 1] samples; a missing PyTorch, an attenuation of any size or
    sign, NaN included, never make it raise. *)
Theorem load_audio_channel_returns_iff
    (P : platform) (delay attenuation : pynum) (pytorch : bool) :
  (∃ c, outcome (load_audio_channel P delay attenuation pytorch) = Ok c) ↔
  (∃ d a, py_int delay = Ok d ∧ py_float attenuation = Ok a ∧ 0 ≤ d ∧
          (d = 0 ∨ (a =? 0)%float = true ∨ coefs_fit P d = true)).
Proof.
  split.
  - intros [c Hc].
    destruct (load_audio_channel_ok_inv _ _ _ _ _ Hc)
      as (d & a & num & den & Hd & Ha & Hnonneg & Hcoefs).
    exists d, a. repeat (split; [assumption|]).
    apply (channel_coefs_returns P d a Hnonneg). eauto.
  - intros (d & a & Hd & Ha & Hnonneg & Hfit).
    apply (channel_coefs_returns P d a Hnonneg) in Hfit as [[num den] Hcoefs].
    rewrite (load_audio_channel_run P delay attenuation pytorch d a num den)
      by assumption.
    eexists; reflexivity.
Qed.

(** X7: every filter that [load_audio_channel] returns has a numerator and
    a denominator of the same length, a numerator that starts with [1.0],
    and a denominator that is [1.0] followed by zeros only. *)
Theorem load_audio_channel_filter_shape
    (P : platform) (delay attenuation : pynum) (pytorch : bool) (c : lfilter) :
  outcome (load_audio_channel P delay attenuation pytorch) = Ok c →
  length (numerator c) = length (denominator c) ∧
  numerator c !! 0%nat = Some 1%float ∧
  ∃ n, denominator c = 1%float :: replicate n 0%float.
Proof.
  intros Hc.
  destruct (load_audio_channel_ok_inv _ _ _ _ _ Hc)
    as (d & a & num & den & Hd & Ha & Hnonneg & Hcoefs).
  pose proof (channel_coefs_ok_inv P d a num den Hnonneg Hcoefs) as Hshape.
  rewrite (load_audio_channel_run P delay attenuation pytorch d a num den) in Hc
    by assumption.
  cbn [outcome snd] in Hc. injection Hc as <-.
  unfold backend_filter. destruct (pytorch && torch_available P); exact Hshape.
Qed.

Lemma load_audio_channel_filter_shape_witness :
  length [1; 0; 0; 3]%float = length [1; 0; 0; 0]%float ∧
  [1; 0; 0; 3]%float !! 0%nat = Some 1%float ∧
  ∃ n, [1; 0; 0; 0]%float = 1%float :: replicate n 0%float.
Proof.
  apply (load_audio_channel_filter_shape demo_platform_scipy (PyFloat 3.5) (PyInt 3)
           false (LFilter [1; 0; 0; 3]%float [1; 0; 0; 0]%float)).
  vm_compute. reflexivity.
Defined.

Lemma channel_coefs_constructs_nothing (P : platform) (d : Z) (a : float) :
  omap constructed (trace (channel_coefs P d a)) = [].
Proof.
  apply omap_none_nil.
  change (emits (λ e, constructed e = None) (channel_coefs P d a)).
  unfold channel_coefs. emits_auto.
Qed.

(** X8: a call that returns has constructed exactly one filter object, the
    one it returns; it is the PyTorch filter exactly when [pytorch] was
    asked for and PyTorch is available, and the scipy filter otherwise. *)
Theorem load_audio_channel_constructs_once
    (P : platform) (delay attenuation : pynum) (pytorch : bool) (c : lfilter) :
  outcome (load_audio_channel P delay attenuation pytorch) = Ok c →
  omap constructed (trace (load_audio_channel P delay attenuation pytorch)) = [c] ∧
  ((∃ n d, c = LFilterPyTorch n d) ↔ pytorch = true ∧ torch_available P = true).
Proof.
  intros Hc.
  destruct (load_audio_channel_ok_inv _ _ _ _ _ Hc)
    as (d & a & num & den & Hd & Ha & Hnonneg & Hcoefs).
  rewrite (load_audio_channel_run P delay attenuation pytorch d a num den) in Hc |- *
    by assumption.
  cbn [outcome snd trace fst] in Hc |- *. injection Hc as <-.
  rewrite omap_app, channel_coefs_constructs_nothing. cbn [app].
  unfold backend_events, backend_filter.
  destruct pytorch, (torch_available P); cbn; (split; [reflexivity|]);
    split; try (intros [? [? [=]]]); try (intros [[=] [=]]); try (intros [[=] _]);
    try (intros [_ [=]]); eauto.
Qed.

Lemma load_audio_channel_constructs_once_witness :
  omap constructed
    (trace (load_audio_channel demo_platform_scipy (PyInt 2) (PyFloat 0.5) true))
  = [LFilter [1; 0; 0.5]%float [1; 0; 0]%float] ∧
  ((∃ n d, LFilter [1; 0; 0.5]%float [1; 0; 0]%float = LFilterPyTorch n d)
   ↔ true = true ∧ torch_available demo_platform_scipy = true).
Proof.
  apply (load_audio_channel_constructs_once demo_platform_scipy (PyInt 2)
           (PyFloat 0.5) true (LFilter [1; 0; 0.5]%float [1; 0; 0]%float)).
  vm_compute. reflexivity.
Defined.

(** The actions of [channel_coefs] on a channel that is not the identity,
    whether numpy allocates the arrays or not. *)
Lemma channel_coefs_two_tap_trace (P : platform) (d : Z) (a : float) :
  0 < d → (a =? 0)%float = false →
  trace (channel_coefs P d a) = range_warning P a.
Proof.
  intros Hd Ha. destruct (coefs_fit P d) eqn:Hfit.
  - now rewrite (channel_coefs_two_tap_run P d a Hd Ha Hfit).
  - now destruct (channel_coefs_refused P d a Hd Ha Hfit) as [e ->].
Qed.

(** The trace of the whole call, conversions done. *)
Lemma load_audio_channel_trace
    (P : platform) (delay attenuation : pynum) (pytorch : bool) (d : Z) (a : float) :
  py_int delay = Ok d → py_float attenuation = Ok a → 0 ≤ d →
  ∃ backend,
    trace (load_audio_channel P delay attenuation pytorch)
    = trace (channel_coefs P d a) ++ backend ∧
    Forall (λ e, e = Log ERROR "PyTorch not available. Resorting to scipy filter"
               ∨ e = Log WARNING "Scipy LFilter does not currently implement proper gradients"
               ∨ constructed e ≠ None) backend.
Proof.
  intros Hd Ha Hnonneg.
  destruct (outcome (channel_coefs P d a)) as [[num den]|e] eqn:Hcoefs.
  - rewrite (load_audio_channel_run P delay attenuation pytorch d a num den)
      by assumption.
    eexists. split; [reflexivity|]. unfold backend_events.
    destruct pytorch, (torch_available P); repeat constructor; cbn; auto;
      right; right; discriminate.
  - rewrite (load_audio_channel_coefs_raise P delay attenuation pytorch d a e)
      by assumption.
    exists []. split; [now rewrite app_nil_r | constructor].
Qed.

(** X9: the warning that prints the attenuation is logged exactly when the
    channel is not the identity and the attenuation is not within
    [[-1, 1]] (a NaN is not), whether or not numpy then allocates the
    arrays; the warning does not stop the call, which returns whenever
    numpy allocates them. *)
Theorem load_audio_channel_attenuation_warning
    (P : platform) (delay attenuation : pynum) (pytorch : bool) (d : Z) (a : float) :
  py_int delay = Ok d →
  py_float attenuation = Ok a →
  0 ≤ d →
  let call := load_audio_channel P delay attenuation pytorch in
  (In (Log WARNING ("filter attenuation " ++ float_str P a ++ " not in [-1, 1]"))
      (trace call)
   ↔ d ≠ 0 ∧ (a =? 0)%float = false ∧
     ((-1 <=? a)%float && (a <=? 1)%float) = false) ∧
  (coefs_fit P d = true → ∃ c, outcome call = Ok c).
Proof.
  intros Hd Ha Hnonneg call. subst call. split.
  2:{ intros Hfit. apply load_audio_channel_returns_iff.
      exists d, a. repeat (split; [assumption|]). right. right. exact Hfit. }
  destruct (load_audio_channel_trace P delay attenuation pytorch d a Hd Ha Hnonneg)
    as (backend & -> & Hbackend).
  rewrite in_app_iff.
  set (msg := ("filter attenuation " ++ float_str P a ++ " not in [-1, 1]")%string).
  assert (Hnot : ¬ In (Log WARNING msg) backend).
  { intros Hin. rewrite List.Forall_forall in Hbackend.
    destruct (Hbackend _ Hin) as [H|[H|H]].
    - discriminate H.
    - subst msg. cbv [String.append] in H. discriminate H.
    - now apply H. }
  destruct (decide (d = 0 ∨ (a =? 0)%float = true)) as [Hid|Hn].
  - rewrite (channel_coefs_identity P d a Hid). cbn [trace fst]. split.
    + intros [[H|[]]|H]; [|tauto].
      subst msg. cbv [String.append] in H. discriminate H.
    + intros (Hd0 & Ha0 & _). destruct Hid as [?|Hz]; [tauto | congruence].
  - assert (Hpos : 0 < d) by (destruct (decide (d = 0)); [tauto | lia]).
    assert (Ha0 : (a =? 0)%float = false)
      by (destruct (a =? 0)%float; [tauto | reflexivity]).
    rewrite (channel_coefs_two_tap_trace P d a Hpos Ha0). unfold range_warning.
    destruct ((-1 <=? a)%float && (a <=? 1)%float); cbn [negb]; split.
    + intros [[]|H]; tauto.
    + intros (_ & _ & [=]).
    + intros _. repeat split; [lia | exact Ha0].
    + intros _. left. now left.
Qed.

Lemma load_audio_channel_attenuation_warning_witness :
  let call := load_audio_channel demo_platform (PyInt 3) (PyFloat 3.5) true in
  (In (Log WARNING "filter attenuation 3.5 not in [-1, 1]") (trace call)
   ↔ 3 ≠ 0 ∧ (3.5 =? 0)%float = false ∧
     ((-1 <=? 3.5)%float && (3.5 <=? 1)%float) = false) ∧
  (coefs_fit demo_platform 3 = true → ∃ c, outcome call = Ok c).
Proof.
  apply (load_audio_channel_attenuation_warning demo_platform (PyInt 3) (PyFloat 3.5)
           true 3 3.5%float).
  - reflexivity.
  - reflexivity.
  - lia.
Defined.

(** ** More on [Readrir] *)

Lemma string_length_app (s t : string) :
  String.length (s +:+ t) = (String.length s + String.length t)%nat.
Proof.
  induction s as [|c s IH]; [reflexivity|].
  change (String c s +:+ t) with (String c (s +:+ t)). cbn [String.length].
  now rewrite IH.
Qed.

Lemma string_app_inj_r (s1 s2 t : string) : s1 +:+ t = s2 +:+ t → s1 = s2.
Proof.
  revert s2. induction s1 as [|c s1 IH]; intros [|c2 s2] H.
  - reflexivity.
  - apply (f_equal String.length) in H.
    change ("" +:+ t) with t in H. rewrite string_length_app in H.
    cbn [String.length] in H. lia.
  - apply (f_equal String.length) in H.
    change ("" +:+ t) with t in H. rewrite string_length_app in H.
    cbn [String.length] in H. lia.
  - change (String c (s1 +:+ t) = String c2 (s2 +:+ t)) in H.
    injection H as -> H. f_equal. now apply IH.
Qed.

(** X10: two different indices never give the same file name, so two
    different room numbers never read the same file; and a room number
    that is not negative reads a file whose index is above 1000. *)
Theorem rir_path_injective (k1 k2 : Z) :
  k1 ≠ k2 →
  rir_path (rir_index k1) ≠ rir_path (rir_index k2) ∧
  (0 ≤ k1 → 1000 < rir_index k1).
Proof.
  intros Hne. split; [|unfold rir_index; lia].
  unfold rir_path. intros H.
  apply (String.app_inj _) in H. apply (String.app_inj _) in H.
  apply string_app_inj_r in H. apply (inj pretty) in H.
  unfold rir_index in H. lia.
Qed.

Lemma rir_path_injective_witness :
  rir_path (rir_index 0) ≠ rir_path (rir_index 1) ∧ (0 ≤ 0 → 1000 < rir_index 0).
Proof. apply (rir_path_injective 0 1). lia. Defined.

(** ** More on the orchestrator *)

(** As [emits_step], and a continuation that follows an exception is not
    looked at. *)
Ltac emits_step_ok :=
  lazymatch goal with
  | |- emits _ (ret _) => apply emits_ret
  | |- emits _ (raise _) => apply emits_raise
  | |- emits _ (lift _) => apply emits_lift
  | |- emits _ (emit _) =>
      apply emits_emit; first [cbn; solve [eauto] | cbn in *; solve [eauto]]
  | |- emits _ (for_each _ _ _) => apply emits_for_each; intros ? ?
  | |- emits _ (bind _ _) =>
      apply emits_bind; [|let a := fresh "a" in let H := fresh "H" in
                          intros a H; try (exfalso; cbn in H; discriminate H)]
  | |- emits _ (if ?b then _ else _) =>
      destruct b eqn:?; try (exfalso; cbn in *; congruence)
  | |- emits _ (match ?x with _ => _ end) =>
      destruct x eqn:?; try (exfalso; cbn in *; congruence)
  end.

Ltac emits_ok := unfold log, to_wav; repeat emits_step_ok.

Section OrchestratorMore.

Variable E : collaborators.

Lemma setup_event_not_benign_update e : setup_event e = true → benign_update e = false.
Proof. destruct e; cbn; congruence. Qed.

Lemma setup_event_not_generation e : setup_event e = true → generation_event e = false.
Proof. destruct e; cbn; congruence. Qed.

Lemma setup_event_not_export e : setup_event e = true → export_event e = false.
Proof. destruct e; cbn; congruence. Qed.

Lemma benign_event_not_generation e : benign_event e = true → generation_event e = false.
Proof. destruct e; cbn; congruence. Qed.

Lemma benign_event_not_export e : benign_event e = true → export_event e = false.
Proof. destruct e; cbn; congruence. Qed.

(** The whole run is its stages in a row: a property of the actions of
    [setup], of the read, of the benign phase and of the attack phase is a
    property of the run. *)
Lemma evaluate_emits (P : event → Prop) cfg n sb sa :
  emits P (setup E cfg sb sa) →
  P (WavRead (rir_path 1001)) →
  (∀ est rir m, emits P (benign_phase E cfg n sb est rir m)) →
  P (Log INFO "Skipping attack generation...") →
  P (Log INFO "Skipping adversarial classification...") →
  P MetricsResults →
  (∀ est rir m, sa = false → emits P (attack_phase E cfg n est rir m)) →
  emits P (_evaluate E cfg n sb sa false).
Proof.
  intros Hsetup Hread Hbenign Hskip1 Hskip2 Hres Hattack. unfold _evaluate.
  apply emits_bind; [exact Hsetup|]. intros [est m0] _.
  apply emits_bind; [rewrite Readrir_room_0; repeat constructor; exact Hread|].
  intros rir _. apply emits_bind; [apply Hbenign|]. intros m _.
  destruct sa; [emits_ok|].
  destruct (match adhoc cfg with Present a => skip_adversarial a | _ => false end);
    [emits_ok | now apply Hattack].
Qed.

(** X11: an [audio_channel] entry without the key [delay], or with it but
    without [attenuation], stops the run with the [ValueError] that names
    the first missing key; the model has been loaded, and no dataset, file
    or filter has been touched. *)
Theorem evaluate_audio_channel_missing_key
    (cfg : config) (num_eval_batches : option Z) (skip_benign skip_attack : bool)
    (a : adhoc_config) (acc : audio_channel_config) :
  adhoc cfg = Present a →
  audio_channel a = Some acc →
  ac_delay acc = None ∨ ac_attenuation acc = None →
  _evaluate E cfg num_eval_batches skip_benign skip_attack false
  = ([LoadModel; Log INFO "loading audio channel"],
     Raise (ValueError
       match ac_delay acc with
       | None => "audio_channel must have key delay"
       | Some _ => "audio_channel must have key attenuation"
       end)).
Proof.
  intros Hadhoc Hchannel Hmissing.
  assert (Hinject : inject_audio_channel E cfg (load_model E (model cfg))
            = ([Log INFO "loading audio channel"],
               Raise (ValueError
                 match ac_delay acc with
                 | None => "audio_channel must have key delay"
                 | Some _ => "audio_channel must have key attenuation"
                 end))).
  { unfold inject_audio_channel. rewrite Hadhoc, Hchannel, bind_ret.
    destruct (ac_delay acc) as [d|]; [|reflexivity].
    destruct Hmissing as [[=]|Hatt]. rewrite Hatt. reflexivity. }
  unfold _evaluate, setup. rewrite Hinject. reflexivity.
Qed.

(** X12: an [adhoc] entry that is an explicit null stops every run with an
    [AttributeError] right after the model is loaded, whatever the skip
    flags are, although the later test of [skip_adversarial] accepts a
    null. *)
Theorem evaluate_adhoc_null
    (cfg : config) (num_eval_batches : option Z) (skip_benign skip_attack : bool) :
  adhoc cfg = Null →
  _evaluate E cfg num_eval_batches skip_benign skip_attack false
  = ([LoadModel],
     Raise (AttributeError "'NoneType' object has no attribute 'get'")).
Proof.
  intros Hnull.
  assert (Hinject : inject_audio_channel E cfg (load_model E (model cfg))
            = ([], Raise (AttributeError "'NoneType' object has no attribute 'get'"))).
  { unfold inject_audio_channel. rewrite Hnull. reflexivity. }
  unfold _evaluate, setup. rewrite Hinject. reflexivity.
Qed.

(** X13: with a valid [audio_channel] entry the channel filter is put in
    front of the estimator's preprocessing defences, which keep their
    order, the model is left as it is, and the estimator is told to
    rebuild its preprocessing as the last action. *)
Theorem inject_audio_channel_prepends
    (cfg : config) (est : estimator (Model E))
    (a : adhoc_config) (acc : audio_channel_config)
    (delay attenuation : pynum) (c : lfilter) :
  adhoc cfg = Present a →
  audio_channel a = Some acc →
  ac_delay acc = Some delay →
  ac_attenuation acc = Some attenuation →
  outcome (load_audio_channel (the_platform E) delay attenuation
             (get_default (ac_pytorch acc) true)) = Ok c →
  outcome (inject_audio_channel E cfg est)
  = Ok {| est_model := est_model est;
          preprocessing_defences := Channel c :: preprocessing_defences est |} ∧
  last (trace (inject_audio_channel E cfg est)) = Some UpdatePreprocessingOperations.
Proof.
  intros Hadhoc Hchannel Hdelay Hatt Hc.
  unfold inject_audio_channel. rewrite Hadhoc, Hchannel, bind_ret, Hdelay, Hatt.
  unfold log. rewrite bind_emit, !bind_ret.
  destruct (load_audio_channel (the_platform E) delay attenuation
              (get_default (ac_pytorch acc) true)) as [t r].
  cbn [outcome snd] in Hc. subst r. cbn [bind].
  rewrite bind_emit. cbn [ret trace outcome fst snd]. split.
  - destruct (preprocessing_defences est); reflexivity.
  - rewrite app_comm_cons. apply last_snoc.
Qed.

Lemma attack_phase_no_benign_update cfg n est rir m :
  emits (λ e, benign_update e = false) (attack_phase E cfg n est rir m).
Proof. unfold attack_phase, attack_step, adversarial_example. emits_ok. Qed.

(** X14: with [skip_benign] set, no action of the run scores or logs the
    benign task: the metrics logger gets no benign update and no benign
    log. *)
Theorem skip_benign_no_benign_update
    (cfg : config) (num_eval_batches : option Z) (skip_attack : bool) :
  Forall (λ e, benign_update e = false)
         (trace (_evaluate E cfg num_eval_batches true skip_attack false)).
Proof.
  apply evaluate_emits; try reflexivity.
  - eapply emits_impl; [apply setup_event_not_benign_update | apply setup_setup_events].
  - intros est rir m. unfold benign_phase. emits_ok.
  - intros est rir m _. apply attack_phase_no_benign_update.
Qed.

(** X15: with a preloaded adversarial dataset no attack and no label
    targeter is loaded or run in the whole run. *)
Theorem preloaded_never_generates
    (cfg : config) (num_eval_batches : option Z) (skip_benign skip_attack : bool) :
  attack_type (attack cfg) = Some "preloaded" →
  Forall (λ e, generation_event e = false)
         (trace (_evaluate E cfg num_eval_batches skip_benign skip_attack false)).
Proof.
  intros Hpre. apply evaluate_emits; try reflexivity.
  - eapply emits_impl; [apply setup_event_not_generation | apply setup_setup_events].
  - intros est rir m. eapply emits_impl;
      [apply benign_event_not_generation | apply benign_phase_benign_events].
  - intros est rir m _. unfold attack_phase, attack_step, adversarial_example.
    rewrite (bool_decide_eq_true_2 _ Hpre).
    apply emits_bind; [emits_ok|]. intros _ _.
    apply emits_bind; [emits_ok|]. intros loaded Hloaded.
    cbn in Hloaded. injection Hloaded as <-. cbv beta iota. emits_ok.
Qed.

(** X16: without the attack type "preloaded" no adversarial dataset is
    loaded in the whole run. *)
Theorem generated_never_loads_adversarial_dataset
    (cfg : config) (num_eval_batches : option Z) (skip_benign skip_attack : bool) :
  attack_type (attack cfg) ≠ Some "preloaded" →
  Forall (λ e, e ≠ LoadAdversarialDataset)
         (trace (_evaluate E cfg num_eval_batches skip_benign skip_attack false)).
Proof.
  intros Hgen. apply evaluate_emits; try discriminate.
  - eapply emits_impl; [|apply setup_setup_events]. intros e He ->. discriminate He.
  - intros est rir m. eapply emits_impl; [|apply benign_phase_benign_events].
    intros e He ->. discriminate He.
  - intros est rir m _. unfold attack_phase, attack_step, adversarial_example.
    rewrite bool_decide_eq_false_2 by exact Hgen. emits_ok.
Qed.

(** X17: when [export_samples] is absent or not positive, no sample
    exporter is created and nothing is exported in the whole run. *)
Theorem export_disabled_never_exports
    (cfg : config) (num_eval_batches : option Z) (skip_benign skip_attack : bool) :
  (∀ k, export_samples (scenario cfg) = Some k → k ≤ 0) →
  Forall (λ e, export_event e = false)
         (trace (_evaluate E cfg num_eval_batches skip_benign skip_attack false)).
Proof.
  intros Hoff. apply evaluate_emits; try reflexivity.
  - eapply emits_impl; [apply setup_event_not_export | apply setup_setup_events].
  - intros est rir m. eapply emits_impl;
      [apply benign_event_not_export | apply benign_phase_benign_events].
  - intros est rir m _. unfold attack_phase, attack_step, adversarial_example.
    assert (Hexp : match export_samples (scenario cfg) with
                   | Some k => if 0 <? k then emit (NewSampleExporter k) ;; ret true
                               else ret false
                   | None => ret false
                   end = ret false).
    { destruct (export_samples (scenario cfg)) as [k|]; [|reflexivity].
      specialize (Hoff k eq_refl). destruct (Z.ltb_spec 0 k); [lia | reflexivity]. }
    rewrite Hexp. emits_ok.
Qed.

Lemma for_each_raises_first {A S} (v : A) (l : list A) (s : S)
    (body : A → S → M S) (t : list event) (e : exn) :
  body v s = (t, Raise e) → for_each (v :: l) s body = (t, Raise e).
Proof. intros H. cbn [for_each]. rewrite H. reflexivity. Qed.

(** One generated batch with [use_label] and [targeted] both set: the
    attack is run on the true label and the result is written to the debug
    file; if the write returns, the result is predicted and scored, and
    then the target label, never assigned, is missed. *)
Lemma attack_step_use_label_targeted cfg est rir the_attack label_targeter
    sample_exporter x y (m : Metrics E) x_adv :
  use_label (attack cfg) = true →
  targeted (attack cfg) = true →
  create_speech_rir (fft_convolve E) (generate the_attack x (Some y)) rir = Ok x_adv →
  attack_step E cfg est rir (Some the_attack) label_targeter sample_exporter
    (Clean E x y) m
  = match wav_write E "~/test.wav" 16000 (Arr2 x_adv) with
    | Ok _ =>
        ([ResourceContext "Attack"; AttackGenerate x;
          ApplyRIR (generate the_attack x (Some y)) rir; Breakpoint;
          WavWrite "~/test.wav" 16000 (Arr2 x_adv); Predict x_adv;
          UpdateTask true false],
         Raise (UnboundLocalError "y_target"))
    | Raise e =>
        ([ResourceContext "Attack"; AttackGenerate x;
          ApplyRIR (generate the_attack x (Some y)) rir; Breakpoint;
          WavWrite "~/test.wav" 16000 (Arr2 x_adv)],
         Raise e)
    end.
Proof.
  intros Huse Htargeted Hrir. unfold attack_step, adversarial_example, to_wav, log.
  rewrite Huse, Htargeted. unfold bind, emit, ret, raise, lift.
  cbv beta iota. rewrite Hrir.
  destruct (wav_write E "~/test.wav" 16000 (Arr2 x_adv)); reflexivity.
Qed.

(** X18: when the attack is generated and [use_label] and [targeted] are
    both set, the attack phase cannot get past its first batch.  The batch
    is attacked with the true label and reverberated; the run then stops at
    the write of "~/test.wav" with the exception of the write, nothing
    being predicted, or, if the write returns, after the batch is predicted
    and scored, with [UnboundLocalError], because no target label was ever
    assigned. *)
Theorem use_label_targeted_raises
    (cfg : config) (num_eval_batches : option Z) (est : estimator (Model E))
    (rir : np.array) (m : Metrics E)
    (labels : string) (x : batch) (y : Label E) (rest : list (batch * Label E))
    (x_adv : batch) :
  attack_type (attack cfg) ≠ Some "preloaded" →
  use_label (attack cfg) = true →
  targeted (attack cfg) = true →
  targeted_labels (attack cfg) = Some labels →
  load_dataset E (dataset cfg) 1 (get_default (eval_split (dataset cfg)) "test_clean")
    num_eval_batches false = (x, y) :: rest →
  create_speech_rir (fft_convolve E)
    (generate (load_attack E (attack cfg) est) x (Some y)) rir = Ok x_adv →
  let run := attack_phase E cfg num_eval_batches est rir m in
  match wav_write E "~/test.wav" 16000 (Arr2 x_adv) with
  | Ok _ =>
      outcome run = Raise (UnboundLocalError "y_target") ∧
      last (trace run) = Some (UpdateTask true false) ∧
      omap predicted (trace run) = [x_adv]
  | Raise e =>
      outcome run = Raise e ∧
      last (trace run) = Some (WavWrite "~/test.wav" 16000 (Arr2 x_adv)) ∧
      omap predicted (trace run) = []
  end.
Proof.
  intros Hgen Huse Htargeted Hlabels Hdata Hrir run. subst run. unfold attack_phase.
  rewrite (bool_decide_eq_false_2 _ Hgen), Htargeted, Hlabels, Hdata.
  cbn [map]. unfold log.
  set (the_attack := load_attack E (attack cfg) est) in *.
  assert (Hloop : ∀ exporter,
            for_each (Clean E x y :: map (λ '(x0, y0), Clean E x0 y0) rest) m
              (attack_step E cfg est rir (Some the_attack)
                 (Some (load_label_targeter E labels)) exporter)
            = attack_step E cfg est rir (Some the_attack)
                 (Some (load_label_targeter E labels)) exporter (Clean E x y) m
              ∨ ∃ m', outcome (attack_step E cfg est rir (Some the_attack)
                 (Some (load_label_targeter E labels)) exporter (Clean E x y) m)
                 = Ok m').
  { intros exporter. cbn [for_each].
    destruct (attack_step E cfg est rir (Some the_attack)
                (Some (load_label_targeter E labels)) exporter (Clean E x y) m)
      as [t [m'|e]]; [right; eauto | left; reflexivity]. }
  assert (Hstep := λ exporter, attack_step_use_label_targeted cfg est rir the_attack
                     (Some (load_label_targeter E labels)) exporter x y m x_adv
                     Huse Htargeted Hrir).
  destruct (wav_write E "~/test.wav" 16000 (Arr2 x_adv)) as [[]|e];
    destruct (negb (Bool.eqb true (attack_targeted the_attack)));
    destruct (export_samples (scenario cfg)) as [k|];
    try destruct (0 <? k);
    unfold bind, emit, ret, raise; cbv beta iota;
    match goal with
    | |- context [for_each _ m (attack_step E cfg est rir _ _ ?ex)] =>
        destruct (Hloop ex) as [-> | [m' Hm']];
          [rewrite (Hstep ex) | rewrite (Hstep ex) in Hm'; discriminate Hm']
    end;
    repeat split.
Qed.

Lemma benign_step_run est rir x y (m : Metrics E) x' x0 :
  rir_batch E rir x = Ok (x', x0) →
  benign_step E est rir (x, y) m
  = (benign_batch_events rir x x' x0,
     Ok (update_task E m y (predict E est x') false false)).
Proof.
  unfold rir_batch.
  intros (x1 & Hx1 & (x2 & Hx2 & ([] & Hw & [= <- <-])%rbind_ok)%rbind_ok)%rbind_ok.
  unfold benign_step, to_wav, benign_batch_events.
  unfold bind, emit, ret, lift. cbv beta iota. rewrite Hx1, Hx2, Hw. reflexivity.
Qed.

Lemma benign_loop_run est rir (data : list (batch * Label E))
    (processed : list (batch * np.array)) :
  Forall2 (λ item p, rir_batch E rir (fst item) = Ok p) data processed →
  ∀ m : Metrics E,
  for_each data m (benign_step E est rir)
  = (concat (zip_with (λ item p, benign_batch_events rir (fst item) (fst p) (snd p))
               data processed),
     Ok (fold_left (λ m ip, update_task E m (snd (fst ip))
                              (predict E est (fst (snd ip))) false false)
           (zip data processed) m)).
Proof.
  induction 1 as [|[x y] [x' x0] data processed Hp _ IH]; intros m.
  - reflexivity.
  - cbn [for_each zip_with concat fold_left zip fst snd].
    rewrite (benign_step_run est rir x y m x' x0 Hp). cbn [bind]. rewrite IH.
    reflexivity.
Qed.

(** X19: a benign phase in which every batch can be reverberated, has a
    first row, and is taken by the write to "/workspace/test.wav", is
    exactly this: the name of the dataset is logged and the dataset is
    loaded once, unshuffled; each batch, in order, is reverberated, stops
    in the debugger, is written to the one file, stops in the debugger
    again, is predicted in its reverberated form and scored; the task is
    logged once at the end; and the logger that comes out has been updated
    batch by batch with the labels and the predictions on the reverberated
    batches. *)
Theorem benign_phase_run
    (cfg : config) (num_eval_batches : option Z) (est : estimator (Model E))
    (rir : np.array) (m : Metrics E) (processed : list (batch * np.array)) :
  let eval_split := get_default (eval_split (dataset cfg)) "test_clean" in
  let data := load_dataset E (dataset cfg) 1 eval_split num_eval_batches false in
  Forall2 (λ item p, rir_batch E rir (fst item) = Ok p) data processed →
  benign_phase E cfg num_eval_batches false est rir m
  = ([Log INFO ("Loading test dataset " ++ dataset_name (dataset cfg) ++ "...")%string;
      LoadDataset eval_split (batch_size (dataset cfg)) false;
      Log INFO "Running inference on benign examples..."]
     ++ concat (zip_with (λ item p,
                  benign_batch_events rir (fst item) (fst p) (snd p))
                  data processed)
     ++ [LogTask false false],
     Ok (fold_left (λ m ip, update_task E m (snd (fst ip))
                              (predict E est (fst (snd ip))) false false)
           (zip data processed) m)).
Proof.
  intros eval_split data Hdata. unfold benign_phase. fold eval_split. fold data.
  unfold log. rewrite !bind_emit.
  rewrite (benign_loop_run est rir data processed Hdata m).
  unfold bind, emit, ret. cbn [trace outcome fst snd app]. reflexivity.
Qed.

(** A loop that returns has performed, for every element, what one round
    performs. *)
Lemma for_each_count {A S} (p : event → bool) (c : nat) (body : A → S → M S) :
  (∀ v s s', outcome (body v s) = Ok s' → count_events p (trace (body v s)) = c) →
  ∀ l s s', outcome (for_each l s body) = Ok s' →
            count_events p (trace (for_each l s body)) = (length l * c)%nat.
Proof.
  intros Hbody. induction l as [|v l IH]; intros s s' Hout; [reflexivity|].
  cbn [for_each length] in *. rewrite outcome_bind in Hout. rewrite trace_bind.
  destruct (outcome (body v s)) as [s1|e] eqn:Hstep; [|discriminate].
  rewrite count_events_app, (Hbody v s s1 Hstep), (IH s1 s' Hout). lia.
Qed.

(** One round of the attack loop that returns: one stop in the debugger,
    one prediction, one adversarial update, one perturbation update, and a
    targeted update exactly when the attack is targeted. *)
Lemma attack_step_counts cfg est rir loaded_attack label_targeter sample_exporter
    item (m m' : Metrics E) :
  outcome (attack_step E cfg est rir loaded_attack label_targeter sample_exporter
             item m) = Ok m' →
  let t := trace (attack_step E cfg est rir loaded_attack label_targeter
                    sample_exporter item m) in
  count_events is_predict t = 1%nat ∧
  count_events is_breakpoint t = 1%nat ∧
  count_events is_adversarial_update t = 1%nat ∧
  count_events is_update_perturbation t = 1%nat ∧
  count_events is_targeted_update t = (if targeted (attack cfg) then 1 else 0)%nat.
Proof.
  unfold attack_step, adversarial_example, to_wav, log.
  destruct item as [x x_adv y|x y], loaded_attack as [the_attack|],
    label_targeter as [targeter|], (use_label (attack cfg)),
    (targeted (attack cfg)), sample_exporter;
    try destruct (unpack_targets E y) as [y0 y_target];
    unfold bind, emit, ret, raise, lift; cbv beta iota;
    match goal with
    | |- context [create_speech_rir ?f ?a ?r] => destruct (create_speech_rir f a r)
    | _ => idtac
    end;
    cbv beta iota;
    match goal with
    | |- context [wav_write E ?f ?fs ?a] => destruct (wav_write E f fs a) as [[]|]
    | _ => idtac
    end;
    cbv beta iota; intros H; try discriminate H; repeat split; reflexivity.
Qed.

Lemma attack_loop_counts cfg est rir loaded_attack label_targeter sample_exporter
    (items : list (attack_item E)) (m m' : Metrics E) :
  outcome (for_each items m
             (attack_step E cfg est rir loaded_attack label_targeter sample_exporter))
  = Ok m' →
  let t := trace (for_each items m
                    (attack_step E cfg est rir loaded_attack label_targeter
                       sample_exporter)) in
  count_events is_predict t = length items ∧
  count_events is_breakpoint t = length items ∧
  count_events is_adversarial_update t = length items ∧
  count_events is_update_perturbation t = length items ∧
  count_events is_targeted_update t
  = (if targeted (attack cfg) then length items else 0)%nat.
Proof.
  intros Hout.
  pose proof (λ v s s' Hs, attack_step_counts cfg est rir loaded_attack
                label_targeter sample_exporter v s s' Hs) as Hstep.
  cbn zeta in Hstep |- *.
  rewrite (for_each_count is_predict 1 _ (λ v s s' Hs, proj1 (Hstep v s s' Hs))
             items m m' Hout).
  rewrite (for_each_count is_breakpoint 1 _
             (λ v s s' Hs, proj1 (proj2 (Hstep v s s' Hs))) items m m' Hout).
  rewrite (for_each_count is_adversarial_update 1 _
             (λ v s s' Hs, proj1 (proj2 (proj2 (Hstep v s s' Hs)))) items m m' Hout).
  rewrite (for_each_count is_update_perturbation 1 _
             (λ v s s' Hs, proj1 (proj2 (proj2 (proj2 (Hstep v s s' Hs)))))
             items m m' Hout).
  rewrite (for_each_count is_targeted_update _ _
             (λ v s s' Hs, proj2 (proj2 (proj2 (proj2 (Hstep v s s' Hs)))))
             items m m' Hout).
  destruct (targeted (attack cfg)); repeat split; lia.
Qed.

(** X20: an attack phase that returns has handled every batch of its
    dataset exactly once: as many stops in the debugger, predictions,
    adversarial updates and perturbation updates as there are batches, and
    as many targeted updates when the attack is targeted, none otherwise. *)
Theorem attack_phase_counts
    (cfg : config) (num_eval_batches : option Z) (est : estimator (Model E))
    (rir : np.array) (m : Metrics E) (r : Results E) :
  outcome (attack_phase E cfg num_eval_batches est rir m) = Ok r →
  let batches :=
    if bool_decide (attack_type (attack cfg) = Some "preloaded")
    then length (load_adversarial_dataset E (attack cfg) num_eval_batches)
    else length (load_dataset E (dataset cfg) 1
                   (get_default (eval_split (dataset cfg)) "test_clean")
                   num_eval_batches false) in
  let t := trace (attack_phase E cfg num_eval_batches est rir m) in
  count_events is_predict t = batches ∧
  count_events is_breakpoint t = batches ∧
  count_events is_adversarial_update t = batches ∧
  count_events is_update_perturbation t = batches ∧
  count_events is_targeted_update t
  = (if targeted (attack cfg) then batches else 0)%nat.
Proof.
  intros Hout batches t. subst batches t. revert Hout.
  unfold attack_phase. unfold log.
  destruct (bool_decide (attack_type (attack cfg) = Some "preloaded"));
    destruct (targeted (attack cfg)) eqn:Htargeted;
    try destruct (negb (Bool.eqb _ (attack_targeted (load_attack E (attack cfg) est))));
    try destruct (targeted_labels (attack cfg)) as [labels|];
    destruct (export_samples (scenario cfg)) as [k|];
    try destruct (0 <? k);
    unfold bind, emit, ret, raise; cbv beta iota;
    try (intros H; discriminate H);
    match goal with
    | |- context [for_each ?l ?s (attack_step E cfg est rir ?la ?lt ?ex)] =>
        pose proof (attack_loop_counts cfg est rir la lt ex l s) as Hcount;
        destruct (for_each l s (attack_step E cfg est rir la lt ex)) as [t [m'|e]]
    end;
    cbv beta iota; intros H; try discriminate H;
    specialize (Hcount m' eq_refl); rewrite Htargeted in Hcount;
    cbn [trace fst] in Hcount; rewrite length_map in Hcount;
    destruct Hcount as (Hc1 & Hc2 & Hc3 & Hc4 & Hc5);
    cbn [trace fst]; rewrite !count_events_app, Hc1, Hc2, Hc3, Hc4, Hc5;
    cbn; repeat split; lia.
Qed.

(** X21: the batch size that [fit_batch_size] sets for the training load
    is gone when the evaluation data is loaded: in a whole run the only
    shuffled load is the training load, with the fit batch size if there is
    one, and every unshuffled load uses the batch size of the dataset
    entry. *)
Theorem datasets_loaded_as_configured
    (cfg : config) (num_eval_batches : option Z) (skip_benign skip_attack : bool) :
  Forall (loads_as_configured cfg)
         (trace (_evaluate E cfg num_eval_batches skip_benign skip_attack false)).
Proof.
  apply evaluate_emits; try exact I.
  - unfold setup, inject_audio_channel, load_audio_channel, channel_coefs,
      prepare_estimator.
    emits_ok.
  - intros est rir m. unfold benign_phase, benign_step. emits_ok.
  - intros est rir m _. unfold attack_phase, attack_step, adversarial_example.
    emits_ok.
Qed.

End OrchestratorMore.

Lemma benign_phase_run_witness :
  benign_phase demo_collaborators demo_config None false
    {| est_model := tt; preprocessing_defences := [] |} [1%float] []
  = ([Log INFO "Loading test dataset librispeech...";
      LoadDataset "test_clean" 1 false;
      Log INFO "Running inference on benign examples...";
      ApplyRIR [[1; 0.5]%float] [1%float]; Breakpoint;
      WavWrite "/workspace/test.wav" 16000 (Arr1 [32767; 16383.5]%float);
      Breakpoint; ResourceContext "Inference";
      Predict [[32767; 16383.5]%float]; UpdateTask false false;
      LogTask false false],
     Ok [(false, false)]).
Proof.
  apply (benign_phase_run demo_collaborators demo_config None
           {| est_model := tt; preprocessing_defences := [] |} [1%float] []
           [([[32767; 16383.5]%float], [32767; 16383.5]%float)]).
  repeat constructor.
Defined.

Lemma attack_phase_counts_witness :
  let t := trace (attack_phase demo_collaborators demo_config None
                    {| est_model := tt; preprocessing_defences := [] |}
                    [1%float] []) in
  count_events is_predict t = 1%nat ∧
  count_events is_breakpoint t = 1%nat ∧
  count_events is_adversarial_update t = 1%nat ∧
  count_events is_update_perturbation t = 1%nat ∧
  count_events is_targeted_update t = 0%nat.
Proof.
  apply (attack_phase_counts demo_collaborators demo_config None
           {| est_model := tt; preprocessing_defences := [] |} [1%float] []
           [(true, false)]).
  vm_compute. reflexivity.
Defined.

Lemma use_label_targeted_raises_witness :
  let run := attack_phase demo_collaborators
               (demo_config_with (adhoc demo_config) demo_use_label_targeted_attack
                  (scenario demo_config))
               None {| est_model := tt; preprocessing_defences := [] |} [1%float] [] in
  outcome run = Raise (UnboundLocalError "y_target") ∧
  last (trace run) = Some (UpdateTask true false) ∧
  omap predicted (trace run) = [[[32767; 16383.5]%float]].
Proof.
  apply (use_label_targeted_raises demo_collaborators
           (demo_config_with (adhoc demo_config) demo_use_label_targeted_attack
              (scenario demo_config))
           None {| est_model := tt; preprocessing_defences := [] |} [1%float] []
           "fixed" [[1; 0.5]%float] tt [] [[32767; 16383.5]%float]).
  - discriminate.
  - reflexivity.
  - reflexivity.
  - reflexivity.
  - reflexivity.
  - vm_compute. reflexivity.
Defined.

Lemma evaluate_audio_channel_missing_key_witness :
  _evaluate demo_collaborators
    (demo_config_with
       (Present {| audio_channel :=
                     Some {| ac_delay := None; ac_attenuation := Some (PyFloat 0.5);
                             ac_pytorch := None |};
                   skip_adversarial := false |})
       (attack demo_config) (scenario demo_config))
    None false false false
  = ([LoadModel; Log INFO "loading audio channel"],
     Raise (ValueError "audio_channel must have key delay")).
Proof.
  apply (evaluate_audio_channel_missing_key demo_collaborators _ None false false
           {| audio_channel :=
                Some {| ac_delay := None; ac_attenuation := Some (PyFloat 0.5);
                        ac_pytorch := None |};
              skip_adversarial := false |}
           {| ac_delay := None; ac_attenuation := Some (PyFloat 0.5);
              ac_pytorch := None |}).
  - reflexivity.
  - reflexivity.
  - left; reflexivity.
Defined.

Lemma evaluate_adhoc_null_witness :
  _evaluate demo_collaborators
    (demo_config_with Null (attack demo_config) (scenario demo_config))
    None true true false
  = ([LoadModel],
     Raise (AttributeError "'NoneType' object has no attribute 'get'")).
Proof.
  apply (evaluate_adhoc_null demo_collaborators
           (demo_config_with Null (attack demo_config) (scenario demo_config))
           None true true).
  reflexivity.
Defined.

Lemma inject_audio_channel_prepends_witness :
  outcome (inject_audio_channel demo_collaborators demo_config
             {| est_model := tt; preprocessing_defences := [Declared "Resample"] |})
  = Ok {| est_model := tt;
          preprocessing_defences :=
            [Channel (LFilterPyTorch [1; 0; 0.5]%float [1; 0; 0]%float);
             Declared "Resample"] |} ∧
  last (trace (inject_audio_channel demo_collaborators demo_config
                 {| est_model := tt; preprocessing_defences := [Declared "Resample"] |}))
  = Some UpdatePreprocessingOperations.
Proof.
  apply (inject_audio_channel_prepends demo_collaborators demo_config
           {| est_model := tt; preprocessing_defences := [Declared "Resample"] |}
           {| audio_channel :=
                Some {| ac_delay := Some (PyInt 2);
                        ac_attenuation := Some (PyFloat 0.5);
                        ac_pytorch := None |};
              skip_adversarial := false |}
           {| ac_delay := Some (PyInt 2); ac_attenuation := Some (PyFloat 0.5);
              ac_pytorch := None |}
           (PyInt 2) (PyFloat 0.5)
           (LFilterPyTorch [1; 0; 0.5]%float [1; 0; 0]%float));
    reflexivity.
Defined.

Lemma preloaded_never_generates_witness :
  Forall (λ e, generation_event e = false)
         (trace (_evaluate demo_collaborators
                   (demo_config_with (adhoc demo_config) demo_preloaded_attack
                      (scenario demo_config))
                   None false false false)).
Proof.
  apply (preloaded_never_generates demo_collaborators
           (demo_config_with (adhoc demo_config) demo_preloaded_attack
              (scenario demo_config)) None false false).
  reflexivity.
Defined.

Lemma generated_never_loads_adversarial_dataset_witness :
  Forall (λ e, e ≠ LoadAdversarialDataset)
         (trace (_evaluate demo_collaborators demo_config None false false false)).
Proof.
  apply (generated_never_loads_adversarial_dataset demo_collaborators demo_config
           None false false).
  discriminate.
Defined.

Lemma export_disabled_never_exports_witness :
  Forall (λ e, export_event e = false)
         (trace (_evaluate demo_collaborators
                   (demo_config_with (adhoc demo_config) (attack demo_config)
                      {| export_samples := Some 0 |})
                   None false false false)).
Proof.
  apply (export_disabled_never_exports demo_collaborators
           (demo_config_with (adhoc demo_config) (attack demo_config)
              {| export_samples := Some 0 |}) None false false).
  intros k [= <-]. lia.
Defined.

(** ** Truncation of a float delay *)

Lemma digits2_pos_bound (m : positive) : Z.pos m < 2 ^ Z.pos (digits2_pos m).
Proof.
  induction m as [m IH|m IH|]; cbn [digits2_pos].
  - rewrite Pos2Z.inj_succ, Z.pow_succ_r by lia. lia.
  - rewrite Pos2Z.inj_succ, Z.pow_succ_r by lia. lia.
  - reflexivity.
Qed.

(** A binary64 number with an exponent below -52 has a magnitude below 1. *)
Lemma valid_small_exponent (m : positive) (e : Z) :
  valid_binary (S754_finite false m e) = true → e < -52 → Z.pos m < 2 ^ (- e).
Proof.
  cbn [valid_binary]. unfold bounded, canonical_mantissa, fexp.
  intros [Hc _]%andb_prop Hlt. apply Z.eqb_eq in Hc.
  assert (Hd : Z.pos (digits2_pos m) ≤ 53) by (unfold prec in *; lia).
  pose proof (digits2_pos_bound m).
  assert (2 ^ Z.pos (digits2_pos m) ≤ 2 ^ (- e)) by (apply Z.pow_le_mono_r; lia).
  lia.
Qed.

(** [int(f)] is 0 for every float strictly between -1 and 1. *)
Lemma py_int_fraction (f : float) :
  (-1 <? f)%float = true → (f <? 1)%float = true → py_int (PyFloat f) = Ok 0.
Proof.
  rewrite !FloatAxioms.ltb_spec. unfold py_int.
  pose proof (Prim2SF_valid f) as Hvalid.
  change (Prim2SF (-1)) with (S754_finite true 4503599627370496 (-52)).
  change (Prim2SF 1) with (S754_finite false 4503599627370496 (-52)).
  destruct (Prim2SF f) as [s|s| |s m e]; unfold SFltb; cbn [SFcompare].
  - reflexivity.
  - destruct s; discriminate.
  - discriminate.
  - intros Hlo Hhi.
    assert (Hsmall : e < -52 ∨ (e = -52 ∧ Z.pos m < 4503599627370496)).
    { destruct s.
      - clear Hhi.
        destruct (Z.compare_spec (-52) e) as [Heq|Hlt|Hgt]; try discriminate Hlo.
        + right. split; [clear -Heq; lia|].
          rewrite Pos.compare_cont_spec in Hlo.
          destruct (Pos.compare_spec 4503599627370496 m) as [?|?|Hm];
            cbv [Pos.switch_Eq CompOpp] in Hlo; try discriminate Hlo.
          clear -Hm. apply Pos2Z.pos_lt_pos. exact Hm.
        + left. clear -Hgt. lia.
      - clear Hlo.
        destruct (Z.compare_spec e (-52)) as [Heq|Hlt|Hgt]; try discriminate Hhi.
        + right. split; [exact Heq|].
          rewrite Pos.compare_cont_spec in Hhi.
          destruct (Pos.compare_spec m 4503599627370496) as [?|Hm|?];
            cbv [Pos.switch_Eq CompOpp] in Hhi; try discriminate Hhi.
          clear -Hm. apply Pos2Z.pos_lt_pos. exact Hm.
        + left. exact Hlt. }
    assert (Ha : (if 0 <=? e then Z.pos m * 2 ^ e else Z.pos m / 2 ^ (- e)) = 0).
    { destruct (Z.leb_spec 0 e) as [Hge|Hneg]; [clear -Hge Hsmall; lia|].
      apply Z.div_small. split; [clear; lia|].
      destruct Hsmall as [Hlt|[-> Hm]]; [|exact Hm].
      apply valid_small_exponent; [|exact Hlt].
      destruct s; exact Hvalid. }
    cbn zeta. rewrite Ha. destruct s; reflexivity.
Qed.

(** X22: a float delay strictly between -1 and 1 is truncated to zero
    before the sign is tested: negative fractions such as -0.5 raise no
    error, and the call returns the identity filter. *)
Theorem fractional_delay_is_identity
    (P : platform) (f : float) (attenuation : pynum) (pytorch : bool) (a : float) :
  (-1 <? f)%float = true →
  (f <? 1)%float = true →
  py_float attenuation = Ok a →
  ∃ c, outcome (load_audio_channel P (PyFloat f) attenuation pytorch) = Ok c ∧
       numerator c = [1%float] ∧ denominator c = [1%float].
Proof.
  intros Hlo Hhi Ha.
  pose proof (py_int_fraction f Hlo Hhi) as Hd.
  assert (Hcoefs : outcome (channel_coefs P 0 a) = Ok ([1%float], [1%float]))
    by (rewrite (channel_coefs_identity P 0 a (or_introl eq_refl)); reflexivity).
  rewrite (load_audio_channel_run P (PyFloat f) attenuation pytorch 0 a
             [1%float] [1%float] Hd Ha (Z.le_refl 0) Hcoefs).
  eexists. split; [reflexivity|]. unfold backend_filter.
  destruct (pytorch && torch_available P); split; reflexivity.
Qed.

Lemma fractional_delay_is_identity_witness :
  ∃ c, outcome (load_audio_channel demo_platform (PyFloat (-0.5)) (PyFloat 0.5) true)
       = Ok c ∧
       numerator c = [1%float] ∧ denominator c = [1%float].
Proof.
  apply (fractional_delay_is_identity demo_platform (-0.5)%float (PyFloat 0.5) true
           0.5%float);
    reflexivity.
Defined.

(** ** More on the benign phase and the estimator *)

Lemma bind_assoc {A B C} (m : M A) (k : A → M B) (k' : B → M C) :
  bind (bind m k) k' = bind m (λ a, bind (k a) k').
Proof.
  destruct m as [t [a|e]]; cbn [bind]; [|reflexivity].
  destruct (k a) as [t2 [b|e]]; cbn [bind]; [|reflexivity].
  destruct (k' b) as [t3 r]. now rewrite app_assoc.
Qed.

Lemma for_each_app {A S} (l1 l2 : list A) (s : S) (body : A → S → M S) :
  for_each (l1 ++ l2) s body = bind (for_each l1 s body) (λ s', for_each l2 s' body).
Proof.
  revert s. induction l1 as [|v l1 IH]; intros s; cbn [app for_each].
  - now rewrite bind_ret.
  - destruct (body v s) as [t [s1|e]]; cbn [bind]; [|reflexivity].
    rewrite IH. destruct (for_each l1 s1 body) as [t2 [s2|e]]; cbn [bind];
      [|reflexivity].
    destruct (for_each l2 s2 body) as [t3 r]. now rewrite app_assoc.
Qed.

Section BenignFailure.

Variable E : collaborators.

(** A batch that fails before inference: it has been handed to
    [create_speech_rir], and nothing has been predicted or logged. *)
Lemma benign_step_raises est rir x y e :
  rir_batch E rir x = Raise e →
  ∃ t, (∀ m : Metrics E,
          benign_step E est rir (x, y) m = (ApplyRIR x rir :: t, Raise e)) ∧
       omap applied t = [] ∧ omap predicted t = [] ∧
       ¬ In (LogTask false false) t.
Proof.
  unfold rir_batch, benign_step, to_wav. unfold bind, emit, ret, lift.
  cbv beta iota. destruct (create_speech_rir (fft_convolve E) x rir) as [x'|e'];
    cbn [rbind].
  2:{ intros [= <-]. exists []. repeat split. intros []. }
  destruct (first_row x') as [x0|e']; cbn [rbind].
  2:{ intros [= <-]. exists []. repeat split. intros []. }
  destruct (wav_write E "/workspace/test.wav" 16000 (Arr1 x0)) as [[]|e'];
    cbn [rbind]; [discriminate|].
  intros [= <-]. eexists. split; [intros m; reflexivity|].
  repeat split. intros [H|[H|[]]]; discriminate H.
Qed.

Lemma benign_batches_applied rir (data : list (batch * Label E))
    (processed : list (batch * np.array)) :
  length data = length processed →
  omap applied
    (concat (zip_with (λ item p, benign_batch_events rir (fst item) (fst p) (snd p))
               data processed))
  = map (λ item, (fst item, rir)) data.
Proof.
  revert processed. induction data as [|item data IH]; intros [|p processed] Hlen;
    try discriminate Hlen; [reflexivity|].
  cbn [zip_with concat map]. rewrite omap_app, IH by (cbn in Hlen; lia).
  reflexivity.
Qed.

Lemma benign_batches_predicted rir (data : list (batch * Label E))
    (processed : list (batch * np.array)) :
  length data = length processed →
  omap predicted
    (concat (zip_with (λ item p, benign_batch_events rir (fst item) (fst p) (snd p))
               data processed))
  = map fst processed.
Proof.
  revert processed. induction data as [|item data IH]; intros [|p processed] Hlen;
    try discriminate Hlen; [reflexivity|].
  cbn [zip_with concat map]. rewrite omap_app, IH by (cbn in Hlen; lia).
  reflexivity.
Qed.

Lemma benign_batches_no_log rir (data : list (batch * Label E))
    (processed : list (batch * np.array)) :
  ¬ In (LogTask false false)
      (concat (zip_with (λ item p, benign_batch_events rir (fst item) (fst p) (snd p))
                 data processed)).
Proof.
  revert processed. induction data as [|item data IH]; intros [|p processed];
    cbn [zip_with concat]; [intros [] | intros [] | intros [] |].
  rewrite in_app_iff. intros [H|H]; [|now apply (IH processed)].
  unfold benign_batch_events in H. repeat destruct H as [H|H]; try discriminate H.
  exact H.
Qed.

(** X23: the benign phase stops at the first batch that cannot be
    reverberated, that has no first row, or that the write to
    "/workspace/test.wav" refuses, with the exception of that batch: the
    batches before it have been predicted, in their reverberated form and
    in order; the failing one has been handed to [create_speech_rir] and
    has not been predicted; the ones after it are not touched, and the
    task is not logged.  A batch without waveforms fails in this way, with
    [IndexError]. *)
Theorem benign_phase_stops_at_first_failure
    (cfg : config) (num_eval_batches : option Z) (est : estimator (Model E))
    (rir : np.array) (m : Metrics E)
    (before : list (batch * Label E)) (x : batch) (y : Label E)
    (rest : list (batch * Label E)) (processed : list (batch * np.array)) (e : exn) :
  load_dataset E (dataset cfg) 1 (get_default (eval_split (dataset cfg)) "test_clean")
    num_eval_batches false = before ++ (x, y) :: rest →
  Forall2 (λ item p, rir_batch E rir (fst item) = Ok p) before processed →
  rir_batch E rir x = Raise e →
  let run := benign_phase E cfg num_eval_batches false est rir m in
  outcome run = Raise e ∧
  omap applied (trace run) = map (λ item, (fst item, rir)) (before ++ [(x, y)]) ∧
  omap predicted (trace run) = map fst processed ∧
  ¬ In (LogTask false false) (trace run) ∧
  (x = [] → ∃ msg, e = IndexError msg).
Proof.
  intros Hdata Hbefore Hx run. subst run. unfold benign_phase. rewrite Hdata.
  rewrite for_each_app, (benign_loop_run E est rir before processed Hbefore m).
  cbn [bind].
  destruct (benign_step_raises est rir x y e Hx) as (t & Hstep & Happ & Hpred & Hlog).
  rewrite (for_each_raises_first _ _ _ _ _ e (Hstep _)).
  pose proof (Forall2_length _ _ _ Hbefore) as Hlen.
  unfold log, bind, emit, ret. cbv beta iota. cbn [trace outcome fst snd].
  split; [reflexivity|]. split; [|split; [|split]].
  - rewrite !omap_app, benign_batches_applied by exact Hlen.
    rewrite map_app. cbn. now rewrite Happ.
  - rewrite !omap_app, benign_batches_predicted by exact Hlen.
    cbn. rewrite Hpred. apply app_nil_r.
  - cbn [app]. intros [H|[H|[H|H]]]; try discriminate H.
    apply in_app_iff in H as [H|[H|H]].
    + now apply benign_batches_no_log in H.
    + discriminate H.
    + now apply Hlog.
  - intros ->. cbn in Hx. injection Hx as <-. eauto.
Qed.

(** X24: without [fit], a defence whose type is none of "Preprocessor",
    "Postprocessor" and "Transform" is never loaded, a "Trainer" defence
    included: the estimator is handed on as it is and nothing is done or
    logged. *)
Theorem prepare_estimator_ignores_defense
    (cfg : config) (est : estimator (Model E)) :
  fit (model cfg) = false →
  (∀ d, defense cfg = Some d →
        defense_type d ≠ Some "Preprocessor" ∧
        defense_type d ≠ Some "Postprocessor" ∧
        defense_type d ≠ Some "Transform") →
  prepare_estimator E cfg est = ([], Ok est).
Proof.
  intros Hfit Htype. unfold prepare_estimator. rewrite Hfit.
  set (ty := match defense cfg with Some d => defense_type d | None => None end).
  assert (Hty : ty ≠ Some "Preprocessor" ∧ ty ≠ Some "Postprocessor" ∧
                ty ≠ Some "Transform").
  { subst ty. destruct (defense cfg) as [d|]; [now apply Htype | repeat split; discriminate]. }
  destruct Hty as (H1 & H2 & H3).
  rewrite (bool_decide_eq_false_2 _ H1), (bool_decide_eq_false_2 _ H2),
    (bool_decide_eq_false_2 _ H3).
  reflexivity.
Qed.

End BenignFailure.

Lemma benign_phase_stops_at_first_failure_witness :
  let run := benign_phase (demo_collaborators_on [([[1; 0.5]%float], tt); ([], tt)])
               demo_config None false
               {| est_model := tt; preprocessing_defences := [] |} [1%float] [] in
  outcome run = Raise (IndexError "index 0 is out of bounds for axis 0 with size 0") ∧
  omap applied (trace run) = [([[1; 0.5]%float], [1%float]); ([], [1%float])] ∧
  omap predicted (trace run) = [[[32767; 16383.5]%float]] ∧
  ¬ In (LogTask false false) (trace run) ∧
  (([] : batch) = [] →
   ∃ msg, IndexError "index 0 is out of bounds for axis 0 with size 0"
          = IndexError msg).
Proof.
  apply (benign_phase_stops_at_first_failure
           (demo_collaborators_on [([[1; 0.5]%float], tt); ([], tt)])
           demo_config None {| est_model := tt; preprocessing_defences := [] |}
           [1%float] [] [([[1; 0.5]%float], tt)] [] tt []
           [([[32767; 16383.5]%float], [32767; 16383.5]%float)]).
  - reflexivity.
  - repeat constructor.
  - reflexivity.
Defined.

Lemma prepare_estimator_ignores_defense_witness :
  prepare_estimator demo_collaborators demo_trainer_config
    {| est_model := tt; preprocessing_defences := [] |}
  = ([], Ok {| est_model := tt; preprocessing_defences := [] |}).
Proof.
  apply (prepare_estimator_ignores_defense demo_collaborators demo_trainer_config).
  - reflexivity.
  - intros d [= <-]. repeat split; discriminate.
Defined.
